(** * Shallow embedding of the Shopify -> Fiken external-sale migration
    (scripts/migrate_shopify_to_fiken_external_sales.js), of the Fiken API
    client's generic [request] and of the webhook ingestion handler of the
    server (PROJECT_SUMMARY.md, createApp / verifyShopifySignature).

    JavaScript numbers are modelled as exact rationals [Q]; floating-point
    rounding error is not modelled.  [Math.round] is [Qfloor (x + 1/2)]. *)

From Stdlib Require Import ZArith QArith Qround Qabs List String Ascii Bool Lia Lqa Permutation Sorted.
Import ListNotations.
Open Scope Z_scope.

(* ------------------------------------------------------------------ *)
(** ** JavaScript values and the numeric helpers of the script *)

(** A raw JSON field as the script reads it: missing, a number or a string. *)
Inductive jsval : Type :=
| JUndef : jsval
| JNum : Q -> jsval
| JStr : string -> jsval.

(** JavaScript truthiness of a field ([||] takes the first truthy one). *)
Definition truthy (v : jsval) : bool :=
  match v with
  | JUndef => false
  | JNum q => negb (Qeq_bool q 0)
  | JStr s => negb (String.eqb s EmptyString)
  end.

Definition js_or (a b : jsval) : jsval := if truthy a then a else b.

Definition is_digit (c : ascii) : bool :=
  let n := nat_of_ascii c in (48 <=? n)%nat && (n <=? 57)%nat.

Definition digit_val (c : ascii) : Z := Z.of_nat (nat_of_ascii c) - 48.

(** Leading digits of a string: their value, their count, and the rest. *)
Fixpoint take_digits (s : string) (acc : Z) (n : nat) : Z * nat * string :=
  match s with
  | String c r => if is_digit c then take_digits r (acc * 10 + digit_val c) (S n)
                  else (acc, n, s)
  | EmptyString => (acc, n, s)
  end.

(** The leading white space [parseInt] and [parseFloat] skip, within
    ASCII: tab, line feed, vertical tab, form feed, carriage return and
    space.  JavaScript also skips non-ASCII spaces (no-break space, the
    Unicode space separators, U+2028, U+2029, U+FEFF), which this byte
    model does not read. *)
Fixpoint skip_ws (s : string) : string :=
  match s with
  | String c r =>
      if (nat_of_ascii c =? 32)%nat
         || ((9 <=? nat_of_ascii c) && (nat_of_ascii c <=? 13))%nat
      then skip_ws r else s
  | EmptyString => s
  end.

(** [parseFloat] on decimal literals [-?digits(.digits)?]: [None] is NaN.
    Exponents are not read. *)
Definition parseFloat (s0 : string) : option Q :=
  let s := skip_ws s0 in
  let '(sign, s1) :=
    match s with
    | String "-" r => (-1, r)
    | String "+" r => (1, r)
    | _ => (1, s)
    end in
  let '(ip, ni, s2) := take_digits s1 0 0 in
  let '(fp, nf) :=
    match s2 with
    | String "." r => let '(f, k, _) := take_digits r 0 0 in (f, k)
    | _ => (0, 0%nat)
    end in
  if ((ni + nf) =? 0)%nat then None
  else Some (Qmake (sign * (ip * 10 ^ Z.of_nat nf + fp)) (Z.to_pos (10 ^ Z.of_nat nf))).

(** [toNumber]: a finite number is kept, a string is [parseFloat]ed, NaN is 0. *)
Definition toNumber (v : jsval) : Q :=
  match v with
  | JUndef => 0
  | JNum q => q
  | JStr s => match parseFloat s with Some q => q | None => 0 end
  end.

(** [a < b] on numbers. *)
Definition Qlt_bool (a b : Q) : bool := negb (Qle_bool b a).

(** [Math.round]: nearest integer, halves rounded towards +infinity. *)
Definition js_round (x : Q) : Z := Qfloor (x + (1 # 2)).

Definition toOre (v : jsval) : Z := js_round (toNumber v * 100).

(* ------------------------------------------------------------------ *)
(** ** Orders, configuration and sale lines *)

Record line_item : Type := {
  item_title : string;           (* "" when missing *)
  item_quantity : jsval;
  item_price : jsval;
  item_price_set_amount : jsval  (* price_set.shop_money.amount *)
}.

Record shipping_line : Type := {
  ship_title : string;
  ship_price : jsval;
  ship_price_set_amount : jsval
}.

Record order : Type := {
  order_id : Z;
  order_number : Z;              (* 0 when missing (falsy) *)
  customer_email : string;       (* "" when missing *)
  line_items : list line_item;
  shipping_lines : list shipping_line;
  total_price : jsval;
  current_total_price : jsval
}.

(** The values the constructor reads from the environment, and [--dry-run]. *)
Record config : Type := {
  vatRate : Q;
  bankAccount : string;
  salesAccount : string;
  shippingAccount : string;
  feeAccount : string;
  feePercent : Q;
  feeAmountFixed : Z;
  dryRun : bool
}.

(** The default configuration of the constructor. *)
Definition default_config (dry : bool) : config := {|
  vatRate := 1 # 4;
  bankAccount := "1920:10001";
  salesAccount := "3000";
  shippingAccount := "3000";
  feeAccount := "7770";
  feePercent := 0;
  feeAmountFixed := 0;
  dryRun := dry
|}.

Record sale_line : Type := {
  description : string;
  account : string;
  vatType : string;
  netPrice : Q;
  netAmount : Q;
  vat : Q;
  vatAmount : Q;
  quantity : Q
}.

Definition or_default (s d : string) : string :=
  if String.eqb s EmptyString then d else s.

(** [toNumber(item.quantity) || 1] *)
Definition item_qty (item : line_item) : Q :=
  let q0 := toNumber (item_quantity item) in
  if Qeq_bool q0 0 then 1%Q else q0.

(** [Math.round(unitGross * 100)] with
    [unitGross = toNumber(item.price || item.price_set?.shop_money?.amount || 0)]. *)
Definition grossPerUnitOre (item : line_item) : Z :=
  js_round (toNumber (js_or (item_price item)
                        (js_or (item_price_set_amount item) (JNum 0))) * 100).

(** One product line (lines 162-181). *)
Definition item_line (cfg : config) (item : line_item) : sale_line :=
  let qty := item_qty item in
  let grossOre := grossPerUnitOre item in
  let netPerUnitOre := js_round (inject_Z grossOre / (1 + vatRate cfg)) in
  let vatPerUnitOre := grossOre - netPerUnitOre in
  let lineNet := (inject_Z netPerUnitOre * qty)%Q in
  let lineVat := (inject_Z vatPerUnitOre * qty)%Q in
  {| description := or_default (item_title item) "Shopify product";
     account := salesAccount cfg; vatType := "HIGH";
     netPrice := lineNet; netAmount := lineNet;
     vat := lineVat; vatAmount := lineVat; quantity := 1 |}.

Definition shipping_gross (s : shipping_line) : Q :=
  toNumber (js_or (ship_price s) (js_or (ship_price_set_amount s) (JNum 0))).

(** One shipping line (lines 183-202); [None] is the [continue]. *)
(** [Math.round(gross * 100)] *)
Definition shipping_gross_ore (s : shipping_line) : Z := js_round (shipping_gross s * 100).

Definition shipping_sale_line (cfg : config) (s : shipping_line) : option sale_line :=
  let gross := shipping_gross s in
  if Qle_bool gross 0 then None
  else
    let grossOre := shipping_gross_ore s in
    let netOre := js_round (inject_Z grossOre / (1 + vatRate cfg)) in
    let vatOre := grossOre - netOre in
    Some {| description := or_default (ship_title s) "Shipping";
            account := shippingAccount cfg; vatType := "HIGH";
            netPrice := inject_Z netOre; netAmount := inject_Z netOre;
            vat := inject_Z vatOre; vatAmount := inject_Z vatOre; quantity := 1 |}.

Definition buildSaleLines (cfg : config) (o : order) : list sale_line :=
  map (item_line cfg) (line_items o)
  ++ flat_map (fun s => match shipping_sale_line cfg s with
                        | Some l => [l] | None => [] end) (shipping_lines o).



Record totals : Type := { t_net : Q; t_vat : Q; t_gross : Q }.

Definition calculateTotals (lines : list sale_line) : totals :=
  let net := fold_left (fun acc l => acc + netAmount l)%Q lines 0%Q in
  let vt := fold_left (fun acc l => acc + vatAmount l)%Q lines 0%Q in
  {| t_net := net; t_vat := vt; t_gross := (net + vt)%Q |}.

(** [computeFeeAmount] (lines 221-231). *)
Definition computed_fee (cfg : config) (gross : Q) : Q :=
  (inject_Z (feeAmountFixed cfg)
   + (if Qlt_bool 0 (feePercent cfg)
      then inject_Z (js_round (gross * feePercent cfg)) else 0))%Q.

Definition computeFeeAmount (cfg : config) (gross : Q) : Q :=
  let fee := computed_fee cfg gross in
  if Qle_bool gross fee then 0%Q else fee.

(** The two [addSalePayment] calls of lines 317-335: the amounts and accounts
    actually registered, in order. *)
Definition bankPaymentAmount (cfg : config) (gross : Q) : Q :=
  let feeAmount := computeFeeAmount cfg gross in
  if Qlt_bool 0 feeAmount then (gross - feeAmount)%Q else gross.

Definition registered_payments (cfg : config) (gross : Q) : list (string * Q) :=
  let feeAmount := computeFeeAmount cfg gross in
  let bank := bankPaymentAmount cfg gross in
  (if Qlt_bool 0 bank then [(bankAccount cfg, bank)] else [])
  ++ (if Qlt_bool 0 feeAmount then [(feeAccount cfg, feeAmount)] else []).

(* ------------------------------------------------------------------ *)
(** ** Strings built by the script *)

Fixpoint digits_fuel (fuel : nat) (n : Z) (acc : string) : string :=
  match fuel with
  | O => acc
  | S f =>
      let acc' := String (ascii_of_nat (48 + Z.to_nat (n mod 10))) acc in
      if n <? 10 then acc' else digits_fuel f (n / 10) acc'
  end.

(** [String(n)] for an integer. *)
Definition z_to_dec (n : Z) : string :=
  let d := digits_fuel (S (Z.to_nat (Z.log2 (Z.abs n)))) (Z.abs n) EmptyString in
  if n <? 0 then String "-" d else d.

Definition lower_ascii (c : ascii) : ascii :=
  let n := nat_of_ascii c in
  if (65 <=? n)%nat && (n <=? 90)%nat then ascii_of_nat (n + 32) else c.

(** [toLowerCase] on ASCII text. *)
Fixpoint lower (s : string) : string :=
  match s with
  | String c r => String (lower_ascii c) (lower r)
  | EmptyString => EmptyString
  end.

(** Text of ASCII characters only, on which [toLowerCase] is [lower]. *)
Fixpoint is_ascii (s : string) : bool :=
  match s with
  | String c r => (nat_of_ascii c <? 128)%nat && is_ascii r
  | EmptyString => true
  end.

(** [order.order_number || order.id]. *)
Definition order_ref (o : order) : Z :=
  if order_number o =? 0 then order_id o else order_number o.

(** The business key [`#${order.order_number || order.id}`]. *)
Definition saleNumberOf (o : order) : string := String "#" (z_to_dec (order_ref o)).

Definition pdf_filename (o : order) : string :=
  ("shopify-order-" ++ z_to_dec (order_ref o) ++ ".pdf")%string.

(** [hay.includes(needle)]. *)
Fixpoint includes (hay needle : string) : bool :=
  match hay with
  | EmptyString => String.prefix needle hay
  | String _ r => String.prefix needle hay || includes r needle
  end.

(** [getCustomerKey]: the lower-cased email, or [order-<id>]. *)
Definition getCustomerKey (o : order) : string :=
  let e := lower (customer_email o) in
  if String.eqb e EmptyString then ("order-" ++ z_to_dec (order_id o))%string else e.

(* ------------------------------------------------------------------ *)
(** ** The remote ledger, the worker's state and its monad *)

Record contact : Type := { contactId : option Z; contact_email : string }.

Record sale : Type := {
  sale_saleNumber : string;
  saleId : Z;
  saleAttachments : list string   (* download URLs, here the file names *)
}.

(** The remote calls the migration issues through the Fiken client. *)
Inductive call : Type :=
| GetCustomers : call
| CreateCustomer : string -> call
| SearchSale : string -> call
| CreateSale : string -> call
| AddSalePayment : Z -> string -> Q -> call
| AttachFileToSale : Z -> string -> call.

(** Calls that change the remote ledger. *)
Definition is_write (c : call) : bool :=
  match c with
  | GetCustomers | SearchSale _ => false
  | _ => true
  end.

Inductive event : Type :=
| Remote : call -> event
| WarnTotals : Q -> event
| DryRunPayload : string -> Z -> list sale_line -> event.

#[projections(primitive)]
Record world : Type := {
  contacts : list contact;
  sales : list sale;
  next_id : Z;
  faults : call -> bool;                (* which calls fail (network / HTTP error) *)
  trace : list event;                   (* newest first *)
  customerCache : list (string * contact)
}.

Definition set_contacts (cs : list contact) (w : world) : world :=
  Build_world cs (sales w) (next_id w) (faults w) (trace w) (customerCache w).
Definition set_sales (ss : list sale) (w : world) : world :=
  Build_world (contacts w) ss (next_id w) (faults w) (trace w) (customerCache w).
Definition set_next_id (n : Z) (w : world) : world :=
  Build_world (contacts w) (sales w) n (faults w) (trace w) (customerCache w).
Definition set_faults (f : call -> bool) (w : world) : world :=
  Build_world (contacts w) (sales w) (next_id w) f (trace w) (customerCache w).
Definition set_trace (t : list event) (w : world) : world :=
  Build_world (contacts w) (sales w) (next_id w) (faults w) t (customerCache w).
Definition set_cache (c : list (string * contact)) (w : world) : world :=
  Build_world (contacts w) (sales w) (next_id w) (faults w) (trace w) c.

Inductive error : Type :=
| ErrNoCustomerId : error          (* 'Unable to resolve customerId for sale' *)
| ErrNoBillableLines : error       (* 'Order has no billable lines' *)
| ErrRemote : call -> error.       (* an error thrown by the Fiken client *)

Inductive result (A : Type) : Type :=
| Ok : A -> result A
| Err : error -> result A.
Arguments Ok {A} _.
Arguments Err {A} _.

(** An async method of the migration: state passing with exceptions. *)
Definition M (A : Type) : Type := world -> result A * world.

Definition ret {A} (a : A) : M A := fun w => (Ok a, w).
Definition throw {A} (e : error) : M A := fun w => (Err e, w).
Definition bind {A B} (m : M A) (k : A -> M B) : M B :=
  fun w => match m w with
           | (Ok a, w') => k a w'
           | (Err e, w') => (Err e, w')
           end.
(** [try { m } catch { h }]. *)
Definition try_catch {A} (m : M A) (h : error -> M A) : M A :=
  fun w => match m w with
           | (Err e, w') => h e w'
           | r => r
           end.
Definition gets {A} (f : world -> A) : M A := fun w => (Ok (f w), w).
Definition modify (f : world -> world) : M unit := fun w => (Ok tt, f w).
Definition log (e : event) : M unit := modify (fun w => set_trace (e :: trace w) w).

Notation "x <- m ;; k" := (bind m (fun x => k)) (at level 61, m at next level, right associativity).
Notation "m ;;; k" := (bind m (fun _ => k)) (at level 61, right associativity).

(** One call through the Fiken client: it is issued (recorded), and either
    fails, leaving the ledger unchanged, or takes effect. *)
Definition remote {A} (c : call) (eff : world -> A * world) : M A :=
  fun w =>
    let w1 := set_trace (Remote c :: trace w) w in
    if faults w c then (Err (ErrRemote c), w1)
    else let (a, w2) := eff w1 in (Ok a, w2).

(** [fiken.getCustomers] *)
Definition api_getCustomers : M (list contact) :=
  remote GetCustomers (fun w => (contacts w, w)).

(** [fiken.createCustomer]: the contactId is read from the Location header. *)
Definition api_createCustomer (email : string) : M contact :=
  remote (CreateCustomer email) (fun w =>
    let c := {| contactId := Some (next_id w); contact_email := email |} in
    (c, set_next_id (next_id w + 1) (set_contacts (contacts w ++ [c]) w))).

(** [fiken.request('GET', '/companies/../sales', {saleNumber, pageSize: 1})]:
    the ledger answers with the sales carrying that number. *)
Definition api_searchSales (sn : string) : M (list sale) :=
  remote (SearchSale sn) (fun w =>
    (filter (fun s => String.eqb (sale_saleNumber s) sn) (sales w), w)).

(** [fiken.createSale]: the saleId is read from the Location header. *)
Definition api_createSale (sn : string) : M Z :=
  remote (CreateSale sn) (fun w =>
    let s := {| sale_saleNumber := sn; saleId := next_id w; saleAttachments := [] |} in
    (next_id w, set_next_id (next_id w + 1) (set_sales (sales w ++ [s]) w))).

Definition api_addSalePayment (sid : Z) (acct : string) (amt : Q) : M unit :=
  remote (AddSalePayment sid acct amt) (fun w => (tt, w)).

Definition attach_to (sid : Z) (fname : string) (s : sale) : sale :=
  if saleId s =? sid
  then {| sale_saleNumber := sale_saleNumber s; saleId := saleId s;
          saleAttachments := saleAttachments s ++ [fname] |}
  else s.

Definition api_attachFileToSale (sid : Z) (fname : string) : M unit :=
  remote (AttachFileToSale sid fname) (fun w =>
    (tt, set_sales (map (attach_to sid fname) (sales w)) w)).

(* ------------------------------------------------------------------ *)
(** ** The migration's methods *)

Fixpoint assoc_find (k : string) (m : list (string * contact)) : option contact :=
  match m with
  | [] => None
  | (k', v) :: r => if String.eqb k k' then Some v else assoc_find k r
  end.

(** [customerCache.set(key, customer)] *)
Definition cache_set (k : string) (c : contact) (m : list (string * contact))
  : list (string * contact) :=
  (k, c) :: filter (fun kv => negb (String.eqb (fst kv) k)) m.

(** [getOrCreateCustomer] (lines 99-144): a failed listing is treated as
    "not found"; a failed creation propagates. *)
Definition getOrCreateCustomer (o : order) : M contact :=
  let key := getCustomerKey o in
  cached <- gets (fun w => assoc_find key (customerCache w)) ;;
  match cached with
  | Some c => ret c
  | None =>
      let email := customer_email o in
      found <- (if String.eqb email EmptyString then ret None
                else try_catch
                       (cs <- api_getCustomers ;;
                        ret (find (fun c => String.eqb (lower (contact_email c)) (lower email)) cs))
                       (fun _ => ret None)) ;;
      customer <- match found with
                  | Some c => ret c
                  | None => api_createCustomer email
                  end ;;
      modify (fun w => set_cache (cache_set key customer (customerCache w)) w) ;;;
      ret customer
  end.

(** [findSaleByNumber] (lines 146-157): a failed search is reported as "none". *)
Definition findSaleByNumber (sn : string) : M (option sale) :=
  try_catch (ss <- api_searchSales sn ;; ret (hd_error ss)) (fun _ => ret None).

Fixpoint pay_all (sid : Z) (ps : list (string * Q)) : M unit :=
  match ps with
  | [] => ret tt
  | (acct, amt) :: r => api_addSalePayment sid acct amt ;;; pay_all sid r
  end.

(** The attachment of the order summary: its failure is only logged. *)
Definition attach_summary (sid : Z) (o : order) : M unit :=
  try_catch (api_attachFileToSale sid (pdf_filename o)) (fun _ => ret tt).

(** [migrateOrder] from the dry-run check on (lines 277-352). *)
Definition migrate_write (cfg : config) (o : order) (sn : string) (customerId : Z)
    (lines : list sale_line) (tot : totals) : M unit :=
  if dryRun cfg then log (DryRunPayload sn customerId lines)
  else
    existingSale <- findSaleByNumber sn ;;
    match existingSale with
    | Some s =>
        let needsAttachment :=
          negb (existsb (fun url => includes url (pdf_filename o)) (saleAttachments s)) in
        if needsAttachment then attach_summary (saleId s) o else ret tt
    | None =>
        sid <- api_createSale sn ;;
        pay_all sid (registered_payments cfg (t_gross tot)) ;;;
        attach_summary sid o
    end.

(** The amount Shopify reports, in øre (line 249). *)
Definition shopifyGross (o : order) (tot : totals) : Z :=
  toOre (js_or (total_price o) (js_or (current_total_price o) (JNum (t_gross tot / 100)))).

(** [migrateOrder] (lines 233-352). *)
Definition migrateOrder (cfg : config) (o : order) : M unit :=
  let sn := saleNumberOf o in
  customer <- getOrCreateCustomer o ;;
  match contactId customer with
  | None => throw ErrNoCustomerId
  | Some customerId =>
      let lines := buildSaleLines cfg o in
      match lines with
      | [] => throw ErrNoBillableLines
      | _ =>
          let tot := calculateTotals lines in
          let diff := (inject_Z (shopifyGross o tot) - t_gross tot)%Q in
          (if Qlt_bool 2 (Qabs diff) then log (WarnTotals diff) else ret tt) ;;;
          migrate_write cfg o sn customerId lines tot
      end
  end.

(** Remote calls issued, oldest first. *)
Definition calls_of (t : list event) : list call :=
  rev (flat_map (fun e => match e with Remote c => [c] | _ => [] end) t).

Definition count_sales (sn : string) (w : world) : nat :=
  List.length (filter (fun s => String.eqb (sale_saleNumber s) sn) (sales w)).

(** A world with an empty ledger and no failing call. *)
Definition empty_world : world :=
  {| contacts := []; sales := []; next_id := 1; faults := fun _ => false;
     trace := []; customerCache := [] |}.

Definition item (price qty : string) : line_item :=
  {| item_title := "Vare"; item_quantity := JStr qty; item_price := JStr price;
     item_price_set_amount := JUndef |}.

Definition sample_order : order :=
  {| order_id := 5001; order_number := 3403; customer_email := "Kari@Example.no";
     line_items := [item "562.00" "1"];
     shipping_lines := [{| ship_title := "Post"; ship_price := JStr "80.00";
                           ship_price_set_amount := JUndef |}];
     total_price := JStr "642.00"; current_total_price := JUndef |}.

(* ------------------------------------------------------------------ *)
(** ** [crypto.createHmac('sha256', secret).update(body).digest('base64')]

    Bytes are integers in [0, 256), words integers in [0, 2^32). *)

Module Sha256.

Definition mask32 (x : Z) : Z := x mod 2 ^ 32.
Definition add32 (a b : Z) : Z := mask32 (a + b).
Definition rotr (x : Z) (n : Z) : Z :=
  Z.lor (Z.shiftr x n) (mask32 (Z.shiftl x (32 - n))).
Definition notw (x : Z) : Z := Z.lxor x (2 ^ 32 - 1).

(** The round constants, in decimal. *)
Definition K : list Z :=
  [1116352408; 1899447441; 3049323471; 3921009573; 961987163; 1508970993;
   2453635748; 2870763221; 3624381080; 310598401; 607225278; 1426881987;
   1925078388; 2162078206; 2614888103; 3248222580; 3835390401; 4022224774;
   264347078; 604807628; 770255983; 1249150122; 1555081692; 1996064986;
   2554220882; 2821834349; 2952996808; 3210313671; 3336571891; 3584528711;
   113926993; 338241895; 666307205; 773529912; 1294757372; 1396182291;
   1695183700; 1986661051; 2177026350; 2456956037; 2730485921; 2820302411;
   3259730800; 3345764771; 3516065817; 3600352804; 4094571909; 275423344;
   430227734; 506948616; 659060556; 883997877; 958139571; 1322822218;
   1537002063; 1747873779; 1955562222; 2024104815; 2227730452; 2361852424;
   2428436474; 2756734187; 3204031479; 3329325298].

Definition H0 : list Z :=
  [0x6a09e667; 0xbb67ae85; 0x3c6ef372; 0xa54ff53a; 0x510e527f; 0x9b05688c; 0x1f83d9ab; 0x5be0cd19].

Fixpoint zeros (n : nat) : list Z := match n with O => [] | S k => 0 :: zeros k end.

Definition be_bytes (n : nat) (x : Z) : list Z :=
  map (fun i => Z.land (Z.shiftr x (8 * Z.of_nat (n - 1 - i))) 255) (seq 0 n).

(** Message padding: [0x80], zeros, and the bit length on 8 bytes. *)
Definition pad (m : list Z) : list Z :=
  let l := List.length m in
  let k := ((119 - (l mod 64)) mod 64)%nat in
  m ++ [128] ++ zeros k ++ be_bytes 8 (8 * Z.of_nat l).

Fixpoint words (fuel : nat) (b : list Z) : list Z :=
  match fuel, b with
  | S f, b0 :: b1 :: b2 :: b3 :: r =>
      (b0 * 2 ^ 24 + b1 * 2 ^ 16 + b2 * 2 ^ 8 + b3) :: words f r
  | _, _ => []
  end.

Definition nthz (l : list Z) (i : nat) : Z := nth i l 0.

(** The message schedule, extended from 16 to 64 words. *)
Fixpoint schedule (fuel : nat) (w : list Z) : list Z :=
  match fuel with
  | O => w
  | S f =>
      let t := List.length w in
      let w2 := nthz w (t - 2) in
      let w15 := nthz w (t - 15) in
      let s0 := Z.lxor (Z.lxor (rotr w15 7) (rotr w15 18)) (Z.shiftr w15 3) in
      let s1 := Z.lxor (Z.lxor (rotr w2 17) (rotr w2 19)) (Z.shiftr w2 10) in
      schedule f (w ++ [add32 (add32 s1 (nthz w (t - 7))) (add32 s0 (nthz w (t - 16)))])
  end.

Definition round (st : list Z) (kw : Z * Z) : list Z :=
  match st with
  | [a; b; c; d; e; f; g; h] =>
      let S1 := Z.lxor (Z.lxor (rotr e 6) (rotr e 11)) (rotr e 25) in
      let ch := Z.lxor (Z.land e f) (Z.land (notw e) g) in
      let t1 := add32 (add32 (add32 h S1) (add32 ch (fst kw))) (snd kw) in
      let S0 := Z.lxor (Z.lxor (rotr a 2) (rotr a 13)) (rotr a 22) in
      let maj := Z.lxor (Z.lxor (Z.land a b) (Z.land a c)) (Z.land b c) in
      let t2 := add32 S0 maj in
      [add32 t1 t2; a; b; c; add32 d t1; e; f; g]
  | _ => st
  end.

Definition compress (st : list Z) (block : list Z) : list Z :=
  let w := schedule 48 (words 16 block) in
  let st' := fold_left round (combine K w) st in
  map (fun p => add32 (fst p) (snd p)) (combine st st').

Fixpoint blocks (fuel : nat) (m : list Z) : list (list Z) :=
  match fuel with
  | O => []
  | S f => match m with
           | [] => []
           | _ => firstn 64 m :: blocks f (skipn 64 m)
           end
  end.

Definition sha256 (m : list Z) : list Z :=
  let p := pad m in
  flat_map (be_bytes 4) (fold_left compress (blocks (List.length p) p) H0).

(** HMAC with a 64-byte block; a longer key is hashed first. *)
Definition hmac (key msg : list Z) : list Z :=
  let k := if (64 <? List.length key)%nat then sha256 key else key in
  let k0 := k ++ zeros (64 - List.length k) in
  let ipad := map (Z.lxor 0x36) k0 in
  let opad := map (Z.lxor 0x5c) k0 in
  sha256 (opad ++ sha256 (ipad ++ msg)).

(** The base64 alphabet, as ASCII codes. *)
Definition b64char (n : Z) : Z :=
  if n <? 26 then 65 + n
  else if n <? 52 then 97 + (n - 26)
  else if n <? 62 then 48 + (n - 52)
  else if n =? 62 then 43 else 47.

Fixpoint base64 (fuel : nat) (b : list Z) : list Z :=
  match fuel with
  | O => []
  | S f =>
      match b with
      | [] => []
      | [x] => [b64char (Z.shiftr x 2); b64char (Z.land (Z.shiftl x 4) 63); 61; 61]
      | [x; y] =>
          [b64char (Z.shiftr x 2);
           b64char (Z.lor (Z.land (Z.shiftl x 4) 63) (Z.shiftr y 4));
           b64char (Z.land (Z.shiftl y 2) 63); 61]
      | x :: y :: z :: r =>
          [b64char (Z.shiftr x 2);
           b64char (Z.lor (Z.land (Z.shiftl x 4) 63) (Z.shiftr y 4));
           b64char (Z.lor (Z.land (Z.shiftl y 2) 63) (Z.shiftr z 6));
           b64char (Z.land z 63)] ++ base64 f r
      end
  end.

(** The digest as the UTF-8 bytes of its base64 text. *)
Definition hmac_sha256_base64 (key msg : list Z) : list Z :=
  let d := hmac key msg in base64 (List.length d) d.

End Sha256.

(** The UTF-8 bytes of an ASCII string. *)
Fixpoint bytes_of (s : string) : list Z :=
  match s with
  | String c r => Z.of_nat (nat_of_ascii c) :: bytes_of r
  | EmptyString => []
  end.

(** A double quote character. *)
Definition dq : string := String (ascii_of_nat 34) EmptyString.

(* ------------------------------------------------------------------ *)
(** ** The webhook ingestion of the server (createApp) *)

Module Webhook.

Local Set Warnings "-register-all".

(** A parsed JSON body (numbers restricted to integers). *)
Inductive json : Type :=
| JNull : json
| JBool : bool -> json
| JNumber : Z -> json
| JString : string -> json
| JArray : list json -> json
| JObject : list (string * json) -> json.

(** [Boolean(v)] *)
Definition jtruthy (v : json) : bool :=
  match v with
  | JNull => false
  | JBool b => b
  | JNumber z => negb (z =? 0)
  | JString s => negb (String.eqb s EmptyString)
  | JArray _ | JObject _ => true
  end.

Fixpoint field (k : string) (fs : list (string * json)) : option json :=
  match fs with
  | [] => None
  | (k', v) :: r => if String.eqb k k' then Some v else field k r
  end.

(** [v?.k]: [None] is [undefined]. *)
Definition prop (v : option json) (k : string) : option json :=
  match v with
  | Some (JObject fs) => field k fs
  | _ => None
  end.

Fixpoint join_comma (l : list string) : string :=
  match l with
  | [] => EmptyString
  | [s] => s
  | s :: r => (s ++ "," ++ join_comma r)%string
  end.

(** [String(v)].  A [JNumber n] is the number whose value is the integer
    [n]; [String] gives its decimal digits when [|n| < 10^21], which covers
    every integer [JSON.parse] reads exactly ([|n| < 2^53]); larger values,
    rounded by [JSON.parse] and printed with an exponent from 10^21 on, are
    not represented faithfully. *)
Fixpoint js_String (v : json) : string :=
  match v with
  | JNull => "null"
  | JBool true => "true"
  | JBool false => "false"
  | JNumber z => z_to_dec z
  | JString s => s
  | JArray l =>
      join_comma (map (fun x => match x with JNull => EmptyString | _ => js_String x end) l)
  | JObject _ => "[object Object]"
  end.

(** [.replace(/[^0-9]/g, '')] *)
Fixpoint only_digits (s : string) : string :=
  match s with
  | String c r => if is_digit c then String c (only_digits r) else only_digits r
  | EmptyString => EmptyString
  end.

(** [parseInt(s, 10)] on a string of digits: [None] is NaN. *)
Definition parseInt_digits (s : string) : option Z :=
  if String.eqb s EmptyString then None
  else let '(n, _, _) := take_digits s 0 0 in Some n.

(** [extractOrderId] *)
Definition extractOrderId (payload : option json) : option Z :=
  match payload with
  | None => None
  | Some p =>
      if negb (jtruthy p) then None
      else
        let candidates :=
          flat_map (fun c => match c with
                             | Some v => if jtruthy v then [v] else []
                             | None => []
                             end)
            [prop payload "id"; prop payload "order_id";
             prop (prop payload "order") "id"; prop payload "admin_graphql_api_id"] in
        let fix first (l : list json) : option Z :=
          match l with
          | [] => None
          | v :: r => match parseInt_digits (only_digits (js_String v)) with
                      | Some n => Some n
                      | None => first r
                      end
          end in
        first candidates
  end.






Fixpoint bytes_eqb (a b : list Z) : bool :=
  match a, b with
  | [], [] => true
  | x :: a', y :: b' => (x =? y) && bytes_eqb a' b'
  | _, _ => false
  end.

(** [verifyShopifySignature(req, webhookSecret)] *)
Definition verifyShopifySignature (rawBody : option (list Z)) (sig : option (list Z))
    (webhookSecret : list Z) : bool :=
  match webhookSecret with
  | [] => false
  | _ =>
      let signature := match sig with Some s => s | None => [] end in
      let generated := Sha256.hmac_sha256_base64 webhookSecret
                         (match rawBody with Some b => b | None => [] end) in
      if negb (List.length generated =? List.length signature)%nat then false
      else bytes_eqb generated signature
  end.

Inductive route : Type := OrdersPaid | RefundsCreate | OrdersCancelled.

(** The three POST handlers: the response status and the queue after it.
    [enqueueOrder] of lib/db is not among the sources; the handler takes it
    as a parameter, [None] standing for a throw. *)
Definition handler (r : route) (secret : list Z) (rawBody : option (list Z))
    (sig : option (list Z)) (body : option json)
    (enqueueOrder : Z -> list Z -> option (list Z)) (queue : list Z) : Z * list Z :=
  if negb (verifyShopifySignature rawBody sig secret) then (401, queue)
  else
    match r with
    | OrdersPaid =>
        match extractOrderId body with
        | Some orderId =>
            if (orderId =? 0)%Z then (202, queue)   (* [if (orderId)]: 0 is falsy *)
            else match enqueueOrder orderId queue with
                 | Some q => (202, q)
                 | None => (500, queue)     (* the catch of the handler *)
                 end
        | None => (202, queue)
        end
    | RefundsCreate | OrdersCancelled => (202, queue)
    end.









End Webhook.

(* ------------------------------------------------------------------ *)
(** ** The Fiken client (lib/fiken.js as listed in PROJECT_SUMMARY.md) *)

Module FikenClient.







End FikenClient.


(** Whether the history [r] (newest first) holds a search for [sn]. *)
Definition searched_in (r : list event) (sn : string) : bool :=
  existsb (fun e => match e with
                    | Remote (SearchSale s) => String.eqb s sn
                    | _ => false
                    end) r.

(** Every [createSale] of a log comes after a search for the same number. *)
Fixpoint created_after_search (t : list event) : bool :=
  match t with
  | [] => true
  | Remote (CreateSale sn) :: r => searched_in r sn && created_after_search r
  | _ :: r => created_after_search r
  end.

Definition is_create (e : event) : bool :=
  match e with Remote (CreateSale _) => true | _ => false end.

(** A run of [migrateOrder] with its own log and its own failing calls. *)
Definition run_once (cfg : config) (o : order) (f : call -> bool) (w : world)
  : result unit * world :=
  migrateOrder cfg o (set_trace [] (set_faults f w)).

(** Failing calls of a run in which the search for [sn] fails. *)
Definition search_fails (sn : string) (c : call) : bool :=
  match c with SearchSale s => String.eqb s sn | _ => false end.


(** A computation whose outcome does not depend on the log it starts from:
    it only prepends its own events. *)
Definition oblivious {A} (m : M A) : Prop :=
  forall w t, m (set_trace t w)
              = let '(r, w') := m (set_trace [] w) in (r, set_trace (trace w' ++ t) w').

(** An order of 50.00 reporting a total of 100.00. *)
Definition mismatch_order : order :=
  {| order_id := 5002; order_number := 3404; customer_email := "Kari@Example.no";
     line_items := [item "50.00" "1"]; shipping_lines := [];
     total_price := JStr "100.00"; current_total_price := JUndef |}.

(** Failing calls of a run in which every customer creation fails. *)
Definition create_customer_fails (c : call) : bool :=
  match c with CreateCustomer _ => true | _ => false end.

(** An order with no product line and a free shipping line. *)
Definition free_shipping_order : order :=
  {| order_id := 5003; order_number := 3405; customer_email := "per@example.no";
     line_items := [];
     shipping_lines := [{| ship_title := "Pickup"; ship_price := JStr "0.00";
                           ship_price_set_amount := JUndef |}];
     total_price := JStr "0.00"; current_total_price := JUndef |}.

(** A computation that can only fail with an error of the Fiken client. *)
Definition only_remote_errors {A} (m : M A) : Prop :=
  forall w e w', m w = (Err e, w') -> exists c, e = ErrRemote c.




(** What a step of the worker leaves unchanged and adds to the log. *)
Definition frame (w w' : world) (new : list event) : Prop :=
  w' = set_trace (new ++ trace w) w.

(* ------------------------------------------------------------------ *)
(** ** The command line and the batch loop of the script *)

(** [parseInt(s, 10)]: leading white space, a sign, then the leading
    decimal digits; [None] is NaN. *)
Definition parseInt10 (s0 : string) : option Z :=
  let s := skip_ws s0 in
  let '(sign, s1) :=
    match s with
    | String "-" r => (-1, r)
    | String "+" r => (1, r)
    | _ => (1, s)
    end in
  let '(n, k, _) := take_digits s1 0 0 in
  if (k =? 0)%nat then None else Some (sign * n).

(** [options.limit]: [null], NaN or a number. *)
Inductive limit_opt : Type :=
| LimitNull : limit_opt
| LimitNaN : limit_opt
| LimitNum : Z -> limit_opt.

Record cli_options : Type := { opt_dryRun : bool; opt_limit : limit_opt }.

(** [parseInt(v, 10)] stored as [options.limit]. *)
Definition limit_of (v : string) : limit_opt :=
  match parseInt10 v with Some n => LimitNum n | None => LimitNaN end.

(** The loop of [parseArgs] (lines 28-36) from the argument at [i]; the
    value after [--limit] is consumed when it is truthy (non-empty). *)
Fixpoint parse_args_loop (argv : list string) (options : cli_options) : cli_options :=
  match argv with
  | [] => options
  | arg :: rest =>
      if String.eqb arg "--dry-run" then
        parse_args_loop rest {| opt_dryRun := true; opt_limit := opt_limit options |}
      else if String.eqb arg "--limit" then
        match rest with
        | v :: rest' =>
            if negb (String.eqb v EmptyString)
            then parse_args_loop rest' {| opt_dryRun := opt_dryRun options;
                                          opt_limit := limit_of v |}
            else parse_args_loop rest options
        | [] => options
        end
      else parse_args_loop rest options
  end.

(** [parseArgs] (lines 26-38). *)
Definition parseArgs (argv : list string) : cli_options :=
  parse_args_loop argv {| opt_dryRun := false; opt_limit := LimitNull |}.

(** The number of orders [run] processes (lines 361-363):
    [limit && limit > 0 ? Math.min(limit, orders.length) : orders.length]. *)
Definition run_limit (limit : limit_opt) (len : nat) : nat :=
  match limit with
  | LimitNum l => if 0 <? l then Nat.min (Z.to_nat l) len else len
  | LimitNull | LimitNaN => len
  end.

(** The loop of [run] (lines 367-377) from [index], [remaining] turns left;
    the error of an order is caught and only logged. *)
Fixpoint run_loop (cfg : config) (orders : list order) (index remaining : nat) : M unit :=
  match remaining with
  | O => ret tt
  | S k =>
      match nth_error orders index with
      | Some o => try_catch (migrateOrder cfg o) (fun _ => ret tt)
      | None => ret tt       (* not reached: [index < limit <= orders.length] *)
      end ;;;
      run_loop cfg orders (S index) k
  end.

(** [run] (lines 359-380) on the orders [loadShopifyOrders] returned. *)
Definition run (cfg : config) (limit : limit_opt) (orders : list order) : M unit :=
  run_loop cfg orders 0 (run_limit limit (List.length orders)).

(** Every order of a list through [migrateOrder] in turn, errors caught. *)
Fixpoint migrate_each (cfg : config) (os : list order) : M unit :=
  match os with
  | [] => ret tt
  | o :: r => try_catch (migrateOrder cfg o) (fun _ => ret tt) ;;; migrate_each cfg r
  end.

(** Events that create a sale or register a payment. *)
Definition pays_or_creates_sale (e : event) : bool :=
  match e with
  | Remote (CreateSale _) | Remote (AddSalePayment _ _ _) => true
  | _ => false
  end.

(** Events that change the sales of the ledger: a sale, a payment or an
    attachment. *)
Definition writes_sales (e : event) : bool :=
  match e with
  | Remote (CreateSale _) | Remote (AddSalePayment _ _ _)
  | Remote (AttachFileToSale _ _) => true
  | _ => false
  end.

(** The events [getOrCreateCustomer] may issue. *)
Definition customer_event (e : event) : bool :=
  match e with
  | Remote GetCustomers | Remote (CreateCustomer _) => true
  | _ => false
  end.

(** The same order under another customer email. *)
Definition with_email (o : order) (e : string) : order :=
  {| order_id := order_id o; order_number := order_number o;
     customer_email := e; line_items := line_items o;
     shipping_lines := shipping_lines o;
     total_price := total_price o; current_total_price := current_total_price o |}.

(** A world whose ledger lists one customer and in which [getCustomers]
    fails or not. *)
Definition world_with_kari (listing_fails : bool) : world :=
  {| contacts := [{| contactId := Some 41; contact_email := "kari@example.no" |}];
     sales := []; next_id := 42;
     faults := fun c => match c with GetCustomers => listing_fails | _ => false end;
     trace := []; customerCache := [] |}.

(** The first sale under [sn] carries an attachment named [fname]. *)
Definition attached (sn fname : string) (w : world) : Prop :=
  exists s, hd_error (filter (fun s => String.eqb (sale_saleNumber s) sn) (sales w)) = Some s
            /\ existsb (fun url => includes url fname) (saleAttachments s) = true.

(** A ledger in which sale #3403 exists, with no payment and no attachment. *)
Definition ledger_with_unpaid_3403 : world :=
  {| contacts := []; sales := [{| sale_saleNumber := "#3403"; saleId := 9;
                                  saleAttachments := [] |}];
     next_id := 10; faults := fun _ => false; trace := []; customerCache := [] |}.

(* ------------------------------------------------------------------ *)
(** ** Paths: [String.prototype.split('/')] *)

Module Paths.

(** [s.split('/')]: always at least one piece. *)
Fixpoint split_slash (s : string) : list string :=
  match s with
  | EmptyString => [EmptyString]
  | String c r =>
      let rest := split_slash r in
      if Ascii.eqb c "/"%char then EmptyString :: rest
      else match rest with
           | h :: t => String c h :: t
           | [] => [String c EmptyString]
           end
  end.

(** [!s.includes('/')] *)
Fixpoint no_slash (s : string) : bool :=
  match s with
  | EmptyString => true
  | String c r => negb (Ascii.eqb c "/"%char) && no_slash r
  end.


End Paths.

(* ------------------------------------------------------------------ *)
(** ** The route table of [createApp] (PROJECT_SUMMARY.md, lines 592-990)

    Express (4 and 5) matches a route path without case sensitivity and
    with an optional trailing slash; a [:name] segment matches one
    non-empty segment without [/].  Every handler of [createApp] answers the
    request and none calls [next()], so the first route registered that
    matches the method and the path handles the request.  Parameters are
    kept as they appear in the path: Express percent-decodes them, and
    answers 400 when that fails, which changes nothing for a parameter
    without [%]; the statements about parameters assume there is none. *)

Module Server.
Import Paths.
Local Open Scope string_scope.

Inductive http_method : Type := GET | HEAD | POST | PUT | DELETE | PATCH.

Definition http_method_eqb (a b : http_method) : bool :=
  match a, b with
  | GET, GET | HEAD, HEAD | POST, POST | PUT, PUT | DELETE, DELETE | PATCH, PATCH => true
  | _, _ => false
  end.

(** A route registered with [app.get] also answers [HEAD]. *)
Definition method_handles (route_m req_m : http_method) : bool :=
  http_method_eqb route_m req_m || (http_method_eqb route_m GET && http_method_eqb req_m HEAD).

(** The routes of [createApp], in the order they are registered. *)
Definition routes : list (http_method * string) :=
  [ (GET, "/healthz");
    (GET, "/status");
    (POST, "/webhooks/orders-paid");
    (POST, "/webhooks/refunds-create");
    (POST, "/webhooks/orders-cancelled");
    (GET, "/fiken/health");
    (GET, "/fiken/companies");
    (GET, "/fiken/companies/:slug/customers");
    (GET, "/fiken/companies/:slug/products");
    (GET, "/fiken/companies/:slug/invoices");
    (GET, "/fiken/companies/:slug/accounts");
    (POST, "/fiken/companies/:slug/customers");
    (POST, "/fiken/companies/:slug/products");
    (POST, "/fiken/companies/:slug/invoices");
    (POST, "/fiken/companies/:slug/invoices/counter");
    (POST, "/fiken/companies/:slug/invoices/:invoiceId/send");
    (POST, "/fiken/companies/:slug/invoices/:invoiceId/payments");
    (POST, "/fiken/companies/:slug/sales");
    (GET, "/fiken/companies/:slug/invoices/:invoiceId");
    (POST, "/fiken/companies/:slug/vouchers");
    (POST, "/fiken/sync/all");
    (POST, "/fiken/sync/companies");
    (POST, "/fiken/sync/companies/:slug/:dataType");
    (POST, "/fiken/sync/companies/:slug/incremental");
    (GET, "/fiken/sync/status");
    (GET, "/fiken/sync/health");
    (GET, "/fiken/local/companies");
    (GET, "/fiken/local/companies/:slug/customers");
    (GET, "/fiken/local/companies/:slug/customers/search");
    (GET, "/fiken/local/companies/:slug/products");
    (GET, "/fiken/local/companies/:slug/products/search");
    (GET, "/fiken/local/companies/:slug/invoices");
    (GET, "/fiken/local/companies/:slug/accounts") ].

Inductive seg : Type :=
| Lit : string -> seg
| Param : string -> seg.

Definition seg_of (s : string) : seg :=
  match s with
  | String c n => if Ascii.eqb c ":"%char then Param n else Lit s
  | EmptyString => Lit s
  end.

(** The segments of a route path. *)
Definition parse_route (p : string) : list seg :=
  map seg_of (match split_slash p with EmptyString :: r => r | l => l end).

(** [\/?$]: one trailing slash is optional. *)
Definition drop_trailing_empty (l : list string) : list string :=
  match rev l with
  | EmptyString :: r => rev r
  | _ => l
  end.

(** The segments of a request path, which starts with [/]. *)
Definition path_segments (p : string) : option (list string) :=
  match split_slash p with
  | EmptyString :: segs => Some (drop_trailing_empty segs)
  | _ => None
  end.

(** The parameters when the segments match the route's. *)
Fixpoint match_segs (ps : list seg) (ts : list string) : option (list (string * string)) :=
  match ps, ts with
  | [], [] => Some []
  | Lit s :: ps', t :: ts' =>
      if String.eqb (lower t) (lower s) then match_segs ps' ts' else None
  | Param n :: ps', t :: ts' =>
      if String.eqb t EmptyString then None
      else option_map (cons (n, t)) (match_segs ps' ts')
  | _, _ => None
  end.

Definition route_matches (m : http_method) (segs : list string)
    (r : http_method * string) : option (list (string * string)) :=
  if method_handles (fst r) m then match_segs (parse_route (snd r)) segs else None.

(** The index of the route that handles the request, with its parameters;
    [None] is Express's 404. *)
Fixpoint dispatch_from (i : nat) (rs : list (http_method * string)) (m : http_method)
    (segs : list string) : option (nat * list (string * string)) :=
  match rs with
  | [] => None
  | r :: rs' =>
      match route_matches m segs r with
      | Some ps => Some (i, ps)
      | None => dispatch_from (S i) rs' m segs
      end
  end.

Definition dispatch (m : http_method) (path : string) : option (nat * list (string * string)) :=
  match path_segments path with
  | Some segs => dispatch_from 0 routes m segs
  | None => None
  end.






End Server.

(* ------------------------------------------------------------------ *)
(** ** [locationHeader ? locationHeader.split('/').pop() : null] of the
    [create*] methods of [FikenAPI] *)

Definition location_id (locationHeader : option string) : option string :=
  match locationHeader with
  | None | Some EmptyString => None
  | Some l => Some (last (Paths.split_slash l) EmptyString)
  end.

(* ------------------------------------------------------------------ *)
(** ** [summariseTempDir(dir)] (PROJECT_SUMMARY.md, lines 1032-1050) *)

(** [s.endsWith(suffix)] *)
Definition endsWith (s suffix : string) : bool :=
  let a := list_ascii_of_string s in
  let b := list_ascii_of_string suffix in
  (List.length b <=? List.length a)%nat
  && String.eqb (string_of_list_ascii (skipn (List.length a - List.length b) a)) suffix.

(** A [fs.Dirent]: its name and [isFile()]. *)
Record dirent : Type := { entry_name : string; entry_isFile : bool }.

(** [fs.readdirSync(dir, { withFileTypes: true })]: the entries, or the
    error thrown with its [code] and [message]. *)
Inductive readdir_outcome : Type :=
| Entries : list dirent -> readdir_outcome
| ReadFailed : string -> string -> readdir_outcome.

(** [{ total, json, pdf }] with the optional [note], or [{ error }]. *)
Inductive temp_summary : Type :=
| Summary : nat -> nat -> nat -> option string -> temp_summary
| SummaryError : string -> temp_summary.

Definition summarise_step (acc : nat * nat * nat) (entry : dirent) : nat * nat * nat :=
  let '(total, json, pdf) := acc in
  if negb (entry_isFile entry) then acc
  else (S total,
        if endsWith (entry_name entry) ".json" then S json else json,
        if endsWith (entry_name entry) ".pdf" then S pdf else pdf).

Definition summariseTempDir (r : readdir_outcome) : temp_summary :=
  match r with
  | Entries entries =>
      let '(total, json, pdf) := fold_left summarise_step entries (0, 0, 0)%nat in
      Summary total json pdf None
  | ReadFailed code message =>
      if String.eqb code "ENOENT" then Summary 0 0 0 (Some "directory-not-found"%string)
      else SummaryError message
  end.

(* ------------------------------------------------------------------ *)
(** ** [loadShopifyOrders()] of the migration script (lines 71-93) *)

(** [Array.prototype.sort()] on strings: code-unit order, here byte order;
    the result of a sort does not depend on the algorithm. *)
Fixpoint insert_sorted (x : string) (l : list string) : list string :=
  match l with
  | [] => [x]
  | y :: r => if String.leb x y then x :: y :: r else y :: insert_sorted x r
  end.

Fixpoint sort_strings (l : list string) : list string :=
  match l with
  | [] => []
  | x :: r => insert_sorted x (sort_strings r)
  end.

(** [file.startsWith('ordre_') && file.endsWith('.json')] *)
Definition order_file (file : string) : bool :=
  String.prefix "ordre_" file && endsWith file ".json".

(** [order.financial_status === 'paid']; [None] is the [TypeError] of a
    property read on [null]. *)
Definition is_paid (order : Webhook.json) : option bool :=
  match order with
  | Webhook.JNull => None
  | Webhook.JObject fs =>
      Some (match Webhook.field "financial_status" fs with
            | Some (Webhook.JString s) => String.eqb s "paid"
            | _ => false
            end)
  | _ => Some false
  end.

(** [orders.filter(order => order.financial_status === 'paid')]: the first
    [null] throws. *)
Fixpoint filter_paid (orders : list Webhook.json) : option (list Webhook.json) :=
  match orders with
  | [] => Some []
  | o :: r =>
      match is_paid o with
      | None => None
      | Some b => match filter_paid r with
                  | None => None
                  | Some r' => Some (if b then o :: r' else r')
                  end
      end
  end.

(** [loadShopifyOrders]: [dir_exists] is [fs.existsSync(ordersPath)],
    [files] the names [fs.readdirSync] lists, [read file] the parsed
    content of a file, [None] when reading or [JSON.parse] throws (the
    file is skipped with a warning).  [None] as a result is a throw. *)
Definition loadShopifyOrders (dir_exists : bool) (files : list string)
    (read : string -> option Webhook.json) : option (list Webhook.json) :=
  if negb dir_exists then None
  else
    let files := sort_strings (filter order_file files) in
    let orders := flat_map (fun file => match read file with
                                        | Some data => [data]
                                        | None => []
                                        end) files in
    filter_paid orders.

(* ================================================================== *)
(** * Properties *)

Open Scope Q_scope.

(** ** Arithmetic of [Math.round] *)


Lemma js_round_spec (x : Q) :
  inject_Z (js_round x) <= x + (1 # 2) /\ x - (1 # 2) < inject_Z (js_round x).
Proof.
  unfold js_round. split.
  - apply Qfloor_le.
  - pose proof (Qlt_floor (x + (1 # 2))) as H.
    rewrite inject_Z_plus in H. change (inject_Z 1) with 1 in H.
    set (y := inject_Z _) in *. lra.
Qed.

Lemma js_round_nonneg (x : Q) : 0 <= x -> (0 <= js_round x)%Z.
Proof.
  intro Hx. destruct (Z_lt_le_dec (js_round x) 0) as [Hn|Hn]; [|exact Hn].
  exfalso. destruct (js_round_spec x) as [_ H2].
  assert (Hq : inject_Z (js_round x) <= inject_Z (-1)) by (rewrite <- Zle_Qle; lia).
  change (inject_Z (-1)) with (-1) in Hq.
  set (y := inject_Z _) in *. lra.
Qed.

Lemma Qle_bool_false (a b : Q) : Qle_bool a b = false -> b < a.
Proof.
  intro H. apply Qnot_le_lt. intro C. apply Qle_bool_iff in C. congruence.
Qed.

Lemma Qlt_bool_true (a b : Q) : Qlt_bool a b = true -> a < b.
Proof.
  unfold Qlt_bool. intro H. apply negb_true_iff in H. now apply Qle_bool_false.
Qed.



(** ** Balanced lines *)






(** ** The fee split *)

Lemma computed_fee_nonneg (cfg : config) (gross : Q) :
  (0 <= feeAmountFixed cfg)%Z -> 0 <= gross -> 0 <= computed_fee cfg gross.
Proof.
  intros Hf Hg. unfold computed_fee.
  assert (H1 : 0 <= inject_Z (feeAmountFixed cfg)) by (change 0 with (inject_Z 0); now rewrite <- Zle_Qle).
  destruct (Qlt_bool 0 (feePercent cfg)) eqn:Hp.
  - apply Qlt_bool_true in Hp.
    assert (H2 : 0 <= inject_Z (js_round (gross * feePercent cfg))).
    { change 0 with (inject_Z 0). rewrite <- Zle_Qle. apply js_round_nonneg.
      apply Qmult_le_0_compat; lra. }
    set (a := inject_Z _) in *. set (b := inject_Z _) in *. lra.
  - set (a := inject_Z _) in *. lra.
Qed.


(** ** Rounding of the net amount *)



(** ** Step equations of the worker *)

(** Reading a field of an updated world. *)
Lemma trace_set_trace t w : trace (set_trace t w) = t. Proof. reflexivity. Qed.
Lemma sales_set_trace t w : sales (set_trace t w) = sales w. Proof. reflexivity. Qed.
Lemma faults_set_trace t w : faults (set_trace t w) = faults w. Proof. reflexivity. Qed.
Lemma trace_set_sales ss w : trace (set_sales ss w) = trace w. Proof. reflexivity. Qed.
Lemma sales_set_sales ss w : sales (set_sales ss w) = ss. Proof. reflexivity. Qed.
Lemma faults_set_sales ss w : faults (set_sales ss w) = faults w. Proof. reflexivity. Qed.
Lemma trace_set_next_id n w : trace (set_next_id n w) = trace w. Proof. reflexivity. Qed.
Lemma sales_set_next_id n w : sales (set_next_id n w) = sales w. Proof. reflexivity. Qed.
Lemma faults_set_next_id n w : faults (set_next_id n w) = faults w. Proof. reflexivity. Qed.

Create Rewrite HintDb world_fields.
#[global] Hint Rewrite trace_set_trace sales_set_trace faults_set_trace trace_set_sales
  sales_set_sales faults_set_sales trace_set_next_id sales_set_next_id faults_set_next_id
  : world_fields.

Lemma remote_eq {A} (c : call) (eff : world -> A * world) (w : world) :
  remote c eff w =
  if faults w c then (Err (ErrRemote c), set_trace (Remote c :: trace w) w)
  else let (a, w2) := eff (set_trace (Remote c :: trace w) w) in (Ok a, w2).
Proof. reflexivity. Qed.

Lemma findSaleByNumber_eq (sn : string) (w : world) :
  findSaleByNumber sn w =
  (Ok (if faults w (SearchSale sn) then None
       else hd_error (filter (fun s => String.eqb (sale_saleNumber s) sn) (sales w))),
   set_trace (Remote (SearchSale sn) :: trace w) w).
Proof.
  unfold findSaleByNumber, try_catch, bind, api_searchSales. rewrite remote_eq.
  destruct (faults w (SearchSale sn)); reflexivity.
Qed.

Lemma api_createSale_eq (sn : string) (w : world) :
  api_createSale sn w =
  if faults w (CreateSale sn)
  then (Err (ErrRemote (CreateSale sn)), set_trace (Remote (CreateSale sn) :: trace w) w)
  else (Ok (next_id w),
        set_next_id (next_id w + 1)
          (set_sales (sales w ++ [{| sale_saleNumber := sn; saleId := next_id w;
                                     saleAttachments := [] |}])
             (set_trace (Remote (CreateSale sn) :: trace w) w))).
Proof. unfold api_createSale. rewrite remote_eq. destruct (faults w _); reflexivity. Qed.

Lemma pay_all_frame (sid : Z) (ps : list (string * Q)) (w : world) :
  exists new, frame w (snd (pay_all sid ps w)) new /\ forallb (fun e => negb (is_create e)) new = true.
Proof.
  revert w; induction ps as [|[acct amt] r IH]; intro w; simpl.
  - exists []. split; reflexivity.
  - unfold bind at 1, api_addSalePayment. rewrite remote_eq.
    destruct (faults w (AddSalePayment sid acct amt)); simpl.
    + exists [Remote (AddSalePayment sid acct amt)]. split; reflexivity.
    + destruct (IH (set_trace (Remote (AddSalePayment sid acct amt) :: trace w) w))
        as [new [Hf Hn]].
      exists (new ++ [Remote (AddSalePayment sid acct amt)]). split.
      * unfold frame in *. rewrite Hf. simpl. now rewrite <- app_assoc.
      * rewrite forallb_app, Hn. reflexivity.
Qed.

Lemma count_attach (sn : string) (sid : Z) (fname : string) (ss : list sale) :
  List.length (filter (fun s => String.eqb (sale_saleNumber s) sn) (map (attach_to sid fname) ss))
  = List.length (filter (fun s => String.eqb (sale_saleNumber s) sn) ss).
Proof.
  induction ss as [|s r IH]; simpl; [reflexivity|].
  unfold attach_to at 1. destruct (saleId s =? sid)%Z; simpl;
    destruct (String.eqb (sale_saleNumber s) sn); simpl; auto.
Qed.

Lemma attach_summary_eq (sid : Z) (o : order) (w : world) :
  attach_summary sid o w =
  (Ok tt,
   let w1 := set_trace (Remote (AttachFileToSale sid (pdf_filename o)) :: trace w) w in
   if faults w (AttachFileToSale sid (pdf_filename o)) then w1
   else set_sales (map (attach_to sid (pdf_filename o)) (sales w1)) w1).
Proof.
  unfold attach_summary, try_catch, api_attachFileToSale. rewrite remote_eq.
  destruct (faults w _); reflexivity.
Qed.

Ltac prefix_of l t :=
  match l with
  | t => constr:(@nil event)
  | ?e :: ?r => let p := prefix_of r t in constr:(e :: p)
  end.

(** Closes [exists new, l = new ++ t /\ ...] when [l] is [t] with events
    pushed on it. *)
Ltac log_prefix :=
  match goal with
  | |- exists n, ?l = n ++ ?t /\ _ =>
      let p := prefix_of l t in exists p; repeat split; reflexivity
  end.

Lemma getOrCreateCustomer_frame (o : order) (w : world) :
  let w' := snd (getOrCreateCustomer o w) in
  sales w' = sales w /\ faults w' = faults w
  /\ exists new, trace w' = new ++ trace w
                 /\ forallb (fun e => negb (is_create e)) new = true
                 /\ searched_in new (saleNumberOf o) = false.
Proof.
  unfold getOrCreateCustomer, bind, gets, ret, modify.
  destruct (assoc_find (getCustomerKey o) (customerCache w)) as [c|].
  - simpl. repeat split; auto. log_prefix.
  - destruct (String.eqb (customer_email o) EmptyString).
    + unfold api_createCustomer. rewrite remote_eq.
      destruct (faults w (CreateCustomer (customer_email o))); simpl;
        (repeat split; auto; log_prefix).
    + unfold try_catch, api_getCustomers. rewrite remote_eq.
      destruct (faults w GetCustomers) eqn:Hg; simpl.
      * unfold api_createCustomer. rewrite remote_eq. simpl.
        destruct (faults w (CreateCustomer (customer_email o))); simpl;
          (repeat split; auto; log_prefix).
      * destruct (find _ (contacts w)) as [c|]; simpl.
        -- repeat split; auto. log_prefix.
        -- unfold api_createCustomer. rewrite remote_eq. simpl.
           destruct (faults w (CreateCustomer (customer_email o))); simpl;
             (repeat split; auto; log_prefix).
Qed.

Lemma count_sales_app_new (sn : string) (w : world) (sid : Z) (t : list event) :
  count_sales sn (set_next_id (sid + 1)
    (set_sales (sales w ++ [{| sale_saleNumber := sn; saleId := sid; saleAttachments := [] |}])
       (set_trace t w)))
  = S (count_sales sn w).
Proof.
  unfold count_sales; simpl. rewrite filter_app, length_app. simpl.
  rewrite String.eqb_refl. simpl. lia.
Qed.

Lemma created_after_search_app (new t : list event) :
  forallb (fun e => negb (is_create e)) new = true ->
  created_after_search (new ++ t) = created_after_search t.
Proof.
  induction new as [|e r IH]; simpl; [reflexivity|].
  intro H. apply andb_true_iff in H as [He Hr].
  destruct e as [c| |]; simpl; auto.
  destruct c; simpl in *; auto. discriminate.
Qed.

Lemma searched_in_app (r t : list event) (sn : string) :
  searched_in (r ++ t) sn = searched_in r sn || searched_in t sn.
Proof. unfold searched_in. apply existsb_app. Qed.

Lemma created_after_search_step (sn : string) (t : list event) :
  created_after_search t = true ->
  created_after_search (Remote (CreateSale sn) :: Remote (SearchSale sn) :: t) = true.
Proof. intro H. simpl. now rewrite String.eqb_refl, H. Qed.

Lemma count_sales_trace (sn : string) (t : list event) (w : world) :
  count_sales sn (set_trace t w) = count_sales sn w.
Proof. reflexivity. Qed.

(** The creating branch of the write phase. *)
Lemma create_branch_props (cfg : config) (o : order) (sn : string) (tot : totals)
    (w : world) :
  let w1 := set_trace (Remote (SearchSale sn) :: trace w) w in
  let '(r, w') := (sid <- api_createSale sn ;;
                   pay_all sid (registered_payments cfg (t_gross tot)) ;;;
                   attach_summary sid o) w1 in
  faults w' = faults w
  /\ (created_after_search (trace w) = true -> created_after_search (trace w') = true)
  /\ (count_sales sn w' <= S (count_sales sn w))%nat
  /\ (r = Ok tt -> (1 <= count_sales sn w')%nat).
Proof.
  simpl. unfold bind at 1. rewrite api_createSale_eq. simpl.
  destruct (faults w (CreateSale sn)) eqn:Hc; simpl.
  - split; [reflexivity|]. split; [apply created_after_search_step|].
    split; [unfold count_sales; simpl; lia|discriminate].
  - pose proof (count_sales_app_new sn w (next_id w)
                  (Remote (CreateSale sn) :: Remote (SearchSale sn) :: trace w)) as Hcnt.
    destruct (pay_all_frame (next_id w) (registered_payments cfg (t_gross tot))
      (set_next_id (next_id w + 1)
        (set_sales (sales w ++ [{| sale_saleNumber := sn; saleId := next_id w;
                                   saleAttachments := [] |}])
           (set_trace (Remote (CreateSale sn) :: Remote (SearchSale sn) :: trace w) w))))
      as [new [Hf Hn]].
    unfold bind.
    destruct (pay_all _ _ _) as [[[]|e] w2] eqn:Hp; simpl in Hf; unfold frame in Hf; subst w2;
      autorewrite with world_fields in *.
    + rewrite attach_summary_eq. simpl. autorewrite with world_fields in *.
      destruct (faults w (AttachFileToSale (next_id w) (pdf_filename o))); simpl.
      * split; [reflexivity|]. split.
        { intro Ht. rewrite created_after_search_app by exact Hn.
          now apply created_after_search_step. }
        unfold count_sales in *; simpl in *. split; [lia|]. intros _; lia.
      * split; [reflexivity|]. split.
        { intro Ht. rewrite created_after_search_app by exact Hn.
          now apply created_after_search_step. }
        unfold count_sales in *; simpl in *. rewrite count_attach.
        split; [lia|]. intros _; lia.
    + split; [reflexivity|]. split.
      { intro Ht. rewrite created_after_search_app by exact Hn.
        now apply created_after_search_step. }
      unfold count_sales in *; simpl in *. split; [lia|]. discriminate.
Qed.

(** The write phase outside dry-run: the failing calls are kept, every sale
    created was searched for first, at most one sale is created, none when a
    working search finds one, and one exists when the phase succeeds. *)
Lemma migrate_write_props (cfg : config) (o : order) (sn : string) (cid : Z)
    (lines : list sale_line) (tot : totals) (w : world) :
  dryRun cfg = false ->
  let '(r, w') := migrate_write cfg o sn cid lines tot w in
  faults w' = faults w
  /\ (created_after_search (trace w) = true -> created_after_search (trace w') = true)
  /\ (count_sales sn w' <= S (count_sales sn w))%nat
  /\ (faults w (SearchSale sn) = false -> (1 <= count_sales sn w)%nat ->
        count_sales sn w' = count_sales sn w
        /\ exists new, trace w' = new ++ trace w
                       /\ forallb (fun e => negb (is_create e)) new = true)
  /\ (r = Ok tt -> (1 <= count_sales sn w')%nat).
Proof.
  intro Hd. unfold migrate_write. rewrite Hd.
  unfold bind at 1. rewrite findSaleByNumber_eq.
  pose proof (create_branch_props cfg o sn tot w) as Hcb. simpl in Hcb.
  destruct (faults w (SearchSale sn)) eqn:Hs.
  - match goal with |- let '(_, _) := ?t in _ => destruct t as [r w'] end.
    destruct Hcb as (H1 & H2 & H3 & H4).
    repeat split; auto; intros; congruence.
  - destruct (hd_error (filter (fun s => String.eqb (sale_saleNumber s) sn) (sales w)))
      as [s|] eqn:Hh.
    + (* an existing sale: only the attachment may be added *)
      assert (Hcnt : (1 <= count_sales sn w)%nat).
      { unfold count_sales. destruct (filter _ (sales w)); simpl in *; [discriminate|lia]. }
      destruct (negb (existsb (fun url => includes url (pdf_filename o)) (saleAttachments s))).
      * rewrite attach_summary_eq. simpl.
        destruct (faults w (AttachFileToSale (saleId s) (pdf_filename o))); simpl.
        -- split; [reflexivity|]. split; [simpl; auto|].
           split; [unfold count_sales; simpl; lia|].
           split; [|intros _; exact Hcnt].
           intros _ _. split; [reflexivity|].
           exists [Remote (AttachFileToSale (saleId s) (pdf_filename o)); Remote (SearchSale sn)].
           split; reflexivity.
        -- split; [reflexivity|]. split; [simpl; auto|].
           unfold count_sales in *; simpl. rewrite count_attach.
           split; [lia|]. split; [|intros _; exact Hcnt].
           intros _ _. split; [reflexivity|].
           exists [Remote (AttachFileToSale (saleId s) (pdf_filename o)); Remote (SearchSale sn)].
           split; reflexivity.
      * unfold ret; simpl. split; [reflexivity|]. split; [simpl; auto|].
        split; [unfold count_sales; simpl; lia|].
        split; [|intros _; exact Hcnt].
        intros _ _. split; [reflexivity|].
        exists [Remote (SearchSale sn)]. split; reflexivity.
    + match goal with |- let '(_, _) := ?t in _ => destruct t as [r w'] end.
      destruct Hcb as (H1 & H2 & H3 & H4).
      repeat split; auto;
        exfalso; match goal with
                 | Hc : (1 <= count_sales sn w)%nat |- _ =>
                     unfold count_sales in Hc; destruct (filter _ (sales w));
                     simpl in *; [lia|discriminate]
                 end.
Qed.

Lemma bind_Ok {A B} (m : M A) (k : A -> M B) w a w' :
  m w = (Ok a, w') -> bind m k w = k a w'.
Proof. intro H. unfold bind. now rewrite H. Qed.

Lemma bind_Err {A B} (m : M A) (k : A -> M B) w e w' :
  m w = (Err e, w') -> bind m k w = (Err e, w').
Proof. intro H. unfold bind. now rewrite H. Qed.

(** [migrateOrder] either fails before the write phase, after resolving the
    customer, or enters it with at most a warning logged. *)
Lemma migrateOrder_shape (cfg : config) (o : order) (w : world) :
  let w1 := snd (getOrCreateCustomer o w) in
  (exists e, migrateOrder cfg o w = (Err e, w1))
  \/ (exists cid lines tot ev,
        forallb (fun e => negb (is_create e)) ev = true
        /\ searched_in ev (saleNumberOf o) = false
        /\ migrateOrder cfg o w
           = migrate_write cfg o (saleNumberOf o) cid lines tot (set_trace (ev ++ trace w1) w1)).
Proof.
  intros w1. unfold w1. unfold migrateOrder. cbv zeta.
  destruct (getOrCreateCustomer o w) as [[c|e] w1'] eqn:E; simpl.
  - rewrite (bind_Ok _ _ _ _ _ E).
    destruct (contactId c) as [cid|]; [|left; eexists; reflexivity].
    destruct (buildSaleLines cfg o) as [|l ls]; [left; eexists; reflexivity|].
    right. unfold bind at 1, log, modify, ret.
    destruct (Qlt_bool 2 _).
    + eexists cid, (l :: ls), (calculateTotals (l :: ls)), [WarnTotals _].
      repeat split; reflexivity.
    + exists cid, (l :: ls), (calculateTotals (l :: ls)), []. repeat split; reflexivity.
  - left. exists e. exact (bind_Err _ _ _ _ _ E).
Qed.

(** The properties of the write phase, for a whole [migrateOrder]. *)
Lemma migrateOrder_props (cfg : config) (o : order) (w : world) :
  dryRun cfg = false ->
  let sn := saleNumberOf o in
  let '(r, w') := migrateOrder cfg o w in
  faults w' = faults w
  /\ (created_after_search (trace w) = true -> created_after_search (trace w') = true)
  /\ (count_sales sn w' <= S (count_sales sn w))%nat
  /\ (faults w (SearchSale sn) = false -> (1 <= count_sales sn w)%nat ->
        count_sales sn w' = count_sales sn w
        /\ exists new, trace w' = new ++ trace w
                       /\ forallb (fun e => negb (is_create e)) new = true)
  /\ (r = Ok tt -> (1 <= count_sales sn w')%nat).
Proof.
  intros Hd sn.
  destruct (getOrCreateCustomer_frame o w) as (Hs & Hf & new1 & Ht1 & Hn1 & _).
  destruct (migrateOrder_shape cfg o w) as [[e He]|(cid & lines & tot & ev & Hev & _ & He)];
    rewrite He.
  - set (w1 := snd (getOrCreateCustomer o w)) in *.
    assert (Hc : count_sales sn w1 = count_sales sn w) by (unfold count_sales; now rewrite Hs).
    split; [exact Hf|]. split.
    { intro Ht. rewrite Ht1, created_after_search_app by exact Hn1. exact Ht. }
    split; [lia|]. split; [|discriminate].
    intros _ _. split; [exact Hc|]. exists new1. split; assumption.
  - set (w1 := snd (getOrCreateCustomer o w)) in *.
    pose proof (migrate_write_props cfg o sn cid lines tot (set_trace (ev ++ trace w1) w1) Hd) as Hw.
    destruct (migrate_write _ _ _ _ _ _ _) as [r w'].
    destruct Hw as (H1 & H2 & H3 & H4 & H5).
    autorewrite with world_fields in *.
    assert (Hc : count_sales sn (set_trace (ev ++ trace w1) w1) = count_sales sn w)
      by (unfold count_sales; simpl; now rewrite Hs).
    rewrite Hc in *.
    split; [congruence|]. split.
    { intro Ht. apply H2. rewrite created_after_search_app by exact Hev.
      rewrite Ht1, created_after_search_app by exact Hn1. exact Ht. }
    split; [exact H3|]. split; [|exact H5].
    intros Hs0 Hc1. rewrite <- Hf in Hs0. destruct (H4 Hs0 Hc1) as [Hc2 (new & Hnew & Hn)].
    split; [exact Hc2|]. exists (new ++ ev ++ new1). split.
    + rewrite Hnew, Ht1. now rewrite !app_assoc.
    + now rewrite !forallb_app, Hn, Hev, Hn1.
Qed.

(** C1 (amended): outside dry-run every [createSale] of a run is preceded in
    that run by a search for the same sale number; when the second run's
    search succeeds and the first run left a sale, the second run creates
    none; processing an order twice from a ledger holding no sale under its
    number leaves at most one such sale when the second run's search does
    not fail, and exactly one when the second run succeeds. *)
Theorem C1_search_before_create (cfg : config) (o : order) (f1 f2 : call -> bool)
    (w0 : world)
    (Hdry : dryRun cfg = false)
    (Hnone : count_sales (saleNumberOf o) w0 = 0%nat)
    (Hsearch : f2 (SearchSale (saleNumberOf o)) = false) :
  let sn := saleNumberOf o in
  let '(r1, w1) := run_once cfg o f1 w0 in
  let '(r2, w2) := run_once cfg o f2 w1 in
  created_after_search (trace w1) = true
  /\ created_after_search (trace w2) = true
  /\ ((1 <= count_sales sn w1)%nat ->
        forallb (fun e => negb (is_create e)) (trace w2) = true)
  /\ (count_sales sn w2 <= 1)%nat
  /\ (r2 = Ok tt -> count_sales sn w2 = 1%nat).
Proof.
  intros sn. unfold run_once.
  pose proof (migrateOrder_props cfg o (set_trace [] (set_faults f1 w0)) Hdry) as P1.
  destruct (migrateOrder cfg o (set_trace [] (set_faults f1 w0))) as [r1 w1].
  destruct P1 as (_ & A2 & A3 & _ & _).
  pose proof (migrateOrder_props cfg o (set_trace [] (set_faults f2 w1)) Hdry) as P2.
  destruct (migrateOrder cfg o (set_trace [] (set_faults f2 w1))) as [r2 w2].
  destruct P2 as (_ & B2 & B3 & B4 & B5).
  fold sn in A3, B3, B4, B5.
  assert (Hc0 : count_sales sn (set_trace [] (set_faults f1 w0)) = 0%nat) by exact Hnone.
  assert (Hc1 : count_sales sn (set_trace [] (set_faults f2 w1)) = count_sales sn w1)
    by reflexivity.
  rewrite Hc0 in A3. rewrite Hc1 in B3, B4.
  autorewrite with world_fields in *.
  specialize (A2 eq_refl). specialize (B2 eq_refl).
  split; [exact A2|]. split; [exact B2|].
  assert (Hw1 : (count_sales sn w1 <= 1)%nat) by lia.
  split.
  { intro H1. destruct (B4 Hsearch H1) as [_ (new & Hnew & Hn)].
    rewrite Hnew, app_nil_r. exact Hn. }
  destruct (count_sales sn w1) as [|[|k]] eqn:Hk.
  - split; [lia|]. intro Hr. specialize (B5 Hr). lia.
  - destruct (B4 Hsearch (le_n 1)) as [Hc2 _]. rewrite Hc2. split; [lia|]. reflexivity.
  - lia.
Qed.

(** Witness of [C1_search_before_create]: the sample order, processed twice
    with no failing call. *)
Lemma C1_witness :
  dryRun (default_config false) = false
  /\ count_sales (saleNumberOf sample_order) empty_world = 0%nat
  /\ (fun _ : call => false) (SearchSale (saleNumberOf sample_order)) = false
  /\ (let sn := saleNumberOf sample_order in
      let '(r1, w1) := run_once (default_config false) sample_order (fun _ => false) empty_world in
      let '(r2, w2) := run_once (default_config false) sample_order (fun _ => false) w1 in
      created_after_search (trace w1) = true
      /\ created_after_search (trace w2) = true
      /\ ((1 <= count_sales sn w1)%nat ->
            forallb (fun e => negb (is_create e)) (trace w2) = true)
      /\ (count_sales sn w2 <= 1)%nat
      /\ (r2 = Ok tt -> count_sales sn w2 = 1%nat)).
Proof.
  split; [reflexivity|]. split; [reflexivity|]. split; [reflexivity|].
  exact (C1_search_before_create (default_config false) sample_order
           (fun _ => false) (fun _ => false) empty_world eq_refl eq_refl eq_refl).
Defined.

(** C1 counterexample: when the second run's search for the sale number
    fails, [findSaleByNumber] reports no sale and a second sale with the
    same number is created. *)
Lemma C1_counterexample :
  let '(_, w1) := run_once (default_config false) sample_order (fun _ => false) empty_world in
  let '(r2, w2) := run_once (default_config false) sample_order
                     (search_fails (saleNumberOf sample_order)) w1 in
  r2 = Ok tt /\ count_sales (saleNumberOf sample_order) w2 = 2%nat.
Proof. vm_compute. split; reflexivity. Qed.

(** ** The log is write-only *)

Lemma ret_obl {A} (a : A) : oblivious (ret a).
Proof. intros w t. reflexivity. Qed.

Lemma throw_obl {A} (e : error) : oblivious (@throw A e).
Proof. intros w t. reflexivity. Qed.

Lemma bind_obl {A B} (m : M A) (k : A -> M B) :
  oblivious m -> (forall a, oblivious (k a)) -> oblivious (bind m k).
Proof.
  intros Hm Hk w t. unfold bind. rewrite Hm.
  destruct (m (set_trace [] w)) as [[a|e] w1]; [|reflexivity].
  rewrite (Hk a w1 (trace w1 ++ t)).
  change (k a w1) with (k a (set_trace (trace w1) w1)).
  rewrite (Hk a w1 (trace w1)).
  destruct (k a (set_trace [] w1)) as [r w2].
  autorewrite with world_fields. now rewrite app_assoc.
Qed.

Lemma try_catch_obl {A} (m : M A) (h : error -> M A) :
  oblivious m -> (forall e, oblivious (h e)) -> oblivious (try_catch m h).
Proof.
  intros Hm Hh w t. unfold try_catch. rewrite Hm.
  destruct (m (set_trace [] w)) as [[a|e] w1]; [reflexivity|].
  rewrite (Hh e w1 (trace w1 ++ t)).
  change (h e w1) with (h e (set_trace (trace w1) w1)).
  rewrite (Hh e w1 (trace w1)).
  destruct (h e (set_trace [] w1)) as [r w2].
  autorewrite with world_fields. now rewrite app_assoc.
Qed.

Lemma log_obl (e : event) : oblivious (log e).
Proof. intros w t. reflexivity. Qed.

Lemma remote_obl {A} (c : call) (eff : world -> A * world) :
  (forall w t, eff (set_trace t w)
               = let '(a, w') := eff (set_trace [] w) in (a, set_trace (trace w' ++ t) w')) ->
  oblivious (remote c eff).
Proof.
  intros He w t. unfold remote. autorewrite with world_fields.
  destruct (faults w c); [reflexivity|].
  rewrite (He (set_trace t w) (Remote c :: t)), (He (set_trace [] w) [Remote c]).
  replace (set_trace [] (set_trace t w)) with (set_trace [] (set_trace [] w)) by reflexivity.
  destruct (eff (set_trace [] (set_trace [] w))) as [a w2].
  autorewrite with world_fields. now rewrite <- app_assoc.
Qed.

Create HintDb obl.
#[local] Hint Resolve ret_obl throw_obl bind_obl try_catch_obl log_obl : obl.

Lemma api_getCustomers_obl : oblivious api_getCustomers.
Proof. apply remote_obl. intros; reflexivity. Qed.
Lemma api_createCustomer_obl e : oblivious (api_createCustomer e).
Proof. apply remote_obl. intros; reflexivity. Qed.
Lemma api_searchSales_obl sn : oblivious (api_searchSales sn).
Proof. apply remote_obl. intros; reflexivity. Qed.
Lemma api_createSale_obl sn : oblivious (api_createSale sn).
Proof. apply remote_obl. intros; reflexivity. Qed.
Lemma api_addSalePayment_obl sid a q : oblivious (api_addSalePayment sid a q).
Proof. apply remote_obl. intros; reflexivity. Qed.
Lemma api_attachFileToSale_obl sid f : oblivious (api_attachFileToSale sid f).
Proof. apply remote_obl. intros; reflexivity. Qed.
#[local] Hint Resolve api_getCustomers_obl api_createCustomer_obl api_searchSales_obl
  api_createSale_obl api_addSalePayment_obl api_attachFileToSale_obl : obl.

Lemma pay_all_obl sid ps : oblivious (pay_all sid ps).
Proof. induction ps as [|[a q] r IH]; simpl; auto with obl. Qed.
#[local] Hint Resolve pay_all_obl : obl.

Lemma migrate_write_obl cfg o sn cid lines tot :
  oblivious (migrate_write cfg o sn cid lines tot).
Proof.
  unfold migrate_write, findSaleByNumber, attach_summary.
  destruct (dryRun cfg); [auto with obl|].
  apply bind_obl; [auto with obl|].
  intros [s|]; [|auto with obl].
  destruct (negb _); auto with obl.
Qed.

Lemma getOrCreateCustomer_obl o : oblivious (getOrCreateCustomer o).
Proof.
  unfold getOrCreateCustomer. cbv zeta.
  apply bind_obl; [intros w t; reflexivity|].
  intros [c|]; [auto with obl|].
  apply bind_obl.
  - destruct (String.eqb _ _); auto with obl.
  - intros [c|]; apply bind_obl; auto with obl;
      intros; apply bind_obl; auto with obl; intros w t; reflexivity.
Qed.






Lemma warn_then (b : bool) (d : Q) (X : M unit) (w : world) :
  oblivious X ->
  bind (if b then log (WarnTotals d) else ret tt) (fun _ => X) w
  = let '(r, w') := X (set_trace [] w) in
    (r, set_trace (trace w' ++ (if b then [WarnTotals d] else []) ++ trace w) w').
Proof.
  intro HX. destruct b; unfold bind, log, modify, ret.
  - exact (HX w (WarnTotals d :: trace w)).
  - exact (HX w (trace w)).
Qed.



(** C5 (divergence): in dry-run mode the customer is still resolved against
    the remote ledger before the dry-run check, so a customer unknown to the
    ledger is created there; only the sale, its payments and its attachment
    are skipped. *)
Theorem C5_dry_run_creates_customer :
  let '(r, w) := migrateOrder (default_config true) sample_order empty_world in
  r = Ok tt
  /\ calls_of (trace w) = [GetCustomers; CreateCustomer "Kari@Example.no"]
  /\ existsb is_write (calls_of (trace w)) = true
  /\ List.length (contacts w) = 1%nat
  /\ count_sales (saleNumberOf sample_order) w = 0%nat.
Proof. vm_compute. repeat split; reflexivity. Qed.

(** ** Errors of the client and of the write phase *)

Lemma ret_ore {A} (a : A) : only_remote_errors (ret a).
Proof. intros w e w' H. discriminate H. Qed.

Lemma log_ore (ev : event) : only_remote_errors (log ev).
Proof. intros w e w' H. discriminate H. Qed.

Lemma bind_ore {A B} (m : M A) (k : A -> M B) :
  only_remote_errors m -> (forall a, only_remote_errors (k a)) ->
  only_remote_errors (bind m k).
Proof.
  intros Hm Hk w e w' H. unfold bind in H.
  destruct (m w) as [[a|e0] w1] eqn:E.
  - exact (Hk a w1 e w' H).
  - injection H as <- _. exact (Hm w e0 w1 E).
Qed.

Lemma try_catch_ore {A} (m : M A) (h : error -> M A) :
  (forall e, only_remote_errors (h e)) -> only_remote_errors (try_catch m h).
Proof.
  intros Hh w e w' H. unfold try_catch in H.
  destruct (m w) as [[a|e0] w1]; [discriminate H|exact (Hh e0 w1 e w' H)].
Qed.

Lemma remote_ore {A} (c : call) (eff : world -> A * world) :
  only_remote_errors (remote c eff).
Proof.
  intros w e w' H. unfold remote in H. destruct (faults w c).
  - injection H as <- _. now exists c.
  - destruct (eff _). discriminate H.
Qed.

Create HintDb ore.
#[local] Hint Resolve ret_ore log_ore bind_ore try_catch_ore remote_ore : ore.
#[local] Hint Unfold api_getCustomers api_createCustomer api_searchSales api_createSale
  api_addSalePayment api_attachFileToSale : ore.

Lemma pay_all_ore sid ps : only_remote_errors (pay_all sid ps).
Proof.
  induction ps as [|[a q] r IH]; simpl; [auto with ore|].
  apply bind_ore; [apply remote_ore|auto].
Qed.

Lemma migrate_write_ore cfg o sn cid lines tot :
  only_remote_errors (migrate_write cfg o sn cid lines tot).
Proof.
  unfold migrate_write, findSaleByNumber, attach_summary.
  destruct (dryRun cfg); [auto with ore|].
  apply bind_ore; [apply try_catch_ore; auto with ore|].
  intros [s|].
  - destruct (negb _); [apply try_catch_ore|]; auto with ore.
  - apply bind_ore; [apply remote_ore|]. intro sid.
    apply bind_ore; [apply pay_all_ore|]. intros _. apply try_catch_ore; auto with ore.
Qed.

Lemma getOrCreateCustomer_ore o : only_remote_errors (getOrCreateCustomer o).
Proof.
  unfold getOrCreateCustomer. cbv zeta.
  apply bind_ore; [intros w e w' H; discriminate H|].
  intros [c|]; [auto with ore|].
  apply bind_ore.
  - destruct (String.eqb _ _); [auto with ore|apply try_catch_ore; auto with ore].
  - intros [c|]; apply bind_ore; try apply remote_ore; auto with ore;
      intros; apply bind_ore; auto with ore; intros w e w' H; discriminate H.
Qed.

Lemma shipping_lines_kept cfg ss :
  List.length (flat_map (fun s => match shipping_sale_line cfg s with
                                  | Some l => [l] | None => [] end) ss)
  = List.length (filter (fun s => negb (Qle_bool (shipping_gross s) 0)) ss).
Proof.
  induction ss as [|s r IH]; simpl; [reflexivity|].
  rewrite length_app, IH. unfold shipping_sale_line. cbv zeta.
  destruct (Qle_bool (shipping_gross s) 0); reflexivity.
Qed.

(** C9 (amended): a shipping line whose price is at most zero gives no line,
    every product line and every other shipping line gives exactly one; and
    [migrateOrder] fails with the no-billable-lines error exactly when the
    order yields no line and the customer, resolved first, was resolved with
    a contact id. *)
Theorem C9_no_billable_lines (cfg : config) (o : order) (w : world) :
  (forall s, Qle_bool (shipping_gross s) 0 = true -> shipping_sale_line cfg s = None)
  /\ List.length (buildSaleLines cfg o)
     = (List.length (line_items o)
        + List.length (filter (fun s => negb (Qle_bool (shipping_gross s) 0))
                              (shipping_lines o)))%nat
  /\ (fst (migrateOrder cfg o w) = Err ErrNoBillableLines
      <-> buildSaleLines cfg o = []
          /\ exists c w1, getOrCreateCustomer o w = (Ok c, w1) /\ contactId c <> None).
Proof.
  split.
  { intros s Hs. unfold shipping_sale_line. cbv zeta. now rewrite Hs. }
  split.
  { unfold buildSaleLines. now rewrite length_app, length_map, shipping_lines_kept. }
  unfold migrateOrder. cbv zeta.
  destruct (getOrCreateCustomer o w) as [[c|e] w1] eqn:E.
  - rewrite (bind_Ok _ _ _ _ _ E).
    destruct (contactId c) as [cid|] eqn:Hc.
    + destruct (buildSaleLines cfg o) as [|l ls].
      * split; [|reflexivity]. intros _. split; [reflexivity|].
        exists c, w1. split; [reflexivity|]. congruence.
      * rewrite warn_then by apply migrate_write_obl.
        destruct (migrate_write _ _ _ _ _ _ (set_trace [] w1)) as [[[]|e'] w'] eqn:Ew;
          simpl; split; try discriminate; try (intros [H _]; discriminate H).
        intro H. injection H as ->.
        destruct (migrate_write_ore _ _ _ _ _ _ _ _ _ Ew). discriminate.
    + simpl. split; [discriminate|].
      intros (_ & c' & w' & H & Hn). injection H as -> _. contradiction.
  - rewrite (bind_Err _ _ _ _ _ E). simpl. split.
    + intro H. injection H as ->.
      destruct (getOrCreateCustomer_ore _ _ _ _ E). discriminate.
    + intros (_ & c' & w' & H & _). discriminate H.
Qed.

(** C9 counterexample: an order with no billable line whose customer cannot
    be created fails with the client's error, not the no-billable-lines one. *)
Lemma C9_counterexample :
  buildSaleLines (default_config false) free_shipping_order = []
  /\ fst (migrateOrder (default_config false) free_shipping_order
            (set_faults create_customer_fails empty_world))
     = Err (ErrRemote (CreateCustomer "per@example.no")).
Proof. vm_compute. split; reflexivity. Qed.




(** ** The signature check *)


















(** ** Test vectors *)

Section Examples.
Local Open Scope Z_scope.

Example ex_migrate :
  let '(r, w) := migrateOrder (default_config false) sample_order empty_world in
  r = Ok tt /\ count_sales "#3403" w = 1%nat
  /\ calls_of (trace w) = [GetCustomers; CreateCustomer "Kari@Example.no";
                           SearchSale "#3403"; CreateSale "#3403";
                           AddSalePayment 2 "1920:10001" (64200 # 1);
                           AttachFileToSale 2 "shopify-order-3403.pdf"].
Proof. vm_compute. repeat split; reflexivity. Qed.

Example ex_sha_abc :
  Sha256.sha256 (bytes_of "abc") =
  Sha256.be_bytes 32 0xba7816bf8f01cfea414140de5dae2223b00361a396177a9cb410ff61f20015ad.
Proof. vm_compute. reflexivity. Qed.

Example ex_hmac :
  Sha256.hmac_sha256_base64 (bytes_of "secret") (bytes_of ("{" ++ dq ++ "id" ++ dq ++ ":1}"))
  = bytes_of "A971iWIMgT8Zj9A9eWfikrFj7wQ16/Qwcc4OlRl2PLc=".
Proof. vm_compute. reflexivity. Qed.

Example ex_hmac_long_key :
  Sha256.hmac_sha256_base64 (repeat 107 70) (repeat 120 100)
  = bytes_of "soazL8ac3OwheOjF/o8jXDq7RZPCPJ9Pjf+5SqO9Ps4=".
Proof. vm_compute. reflexivity. Qed.

End Examples.

(* ================================================================== *)
(** * Further properties of the script, the client and the server *)

(** ** [parseArgs] *)

Lemma parse_args_loop_no_limit (argv : list string) (opts : cli_options) :
  ~ In "--limit"%string argv ->
  parse_args_loop argv opts
  = {| opt_dryRun := opt_dryRun opts || existsb (fun a => String.eqb a "--dry-run") argv;
       opt_limit := opt_limit opts |}.
Proof.
  revert opts; induction argv as [|a r IH]; intros opts Hn; simpl.
  - destruct opts; simpl; now rewrite orb_false_r.
  - assert (Hr : ~ In "--limit"%string r) by (intro; apply Hn; now right).
    assert (Ha : a <> "--limit"%string) by (intro; apply Hn; now left).
    destruct (String.eqb a "--dry-run") eqn:Hd.
    + rewrite IH by exact Hr. simpl. now rewrite orb_true_r.
    + apply String.eqb_neq in Ha. rewrite Ha. rewrite IH by exact Hr.
      now rewrite orb_false_l.
Qed.

Lemma parse_args_loop_app (pre rest : list string) (opts : cli_options) :
  ~ In "--limit"%string pre ->
  parse_args_loop (pre ++ rest) opts = parse_args_loop rest (parse_args_loop pre opts).
Proof.
  revert opts; induction pre as [|a r IH]; intros opts Hn; simpl; [reflexivity|].
  assert (Hr : ~ In "--limit"%string r) by (intro; apply Hn; now right).
  assert (Ha : a <> "--limit"%string) by (intro; apply Hn; now left).
  apply String.eqb_neq in Ha. rewrite Ha.
  destruct (String.eqb a "--dry-run"); apply IH; exact Hr.
Qed.

(** ** [run] *)

Lemma nth_error_skipn_cons {A} (l : list A) (i : nat) :
  (i < List.length l)%nat ->
  exists x, nth_error l i = Some x /\ skipn i l = x :: skipn (S i) l.
Proof.
  revert i; induction l as [|a r IH]; intros i Hi; simpl in Hi; [lia|].
  destruct i as [|i]; simpl.
  - exists a. split; reflexivity.
  - apply IH. lia.
Qed.

Lemma run_loop_eq (cfg : config) (orders : list order) (k : nat) :
  forall i w, (i + k <= List.length orders)%nat ->
  run_loop cfg orders i k w = migrate_each cfg (firstn k (skipn i orders)) w.
Proof.
  induction k as [|k IH]; intros i w Hk; simpl; [reflexivity|].
  destruct (nth_error_skipn_cons orders i ltac:(lia)) as (o & Hn & Hs).
  rewrite Hn, Hs. simpl. unfold bind.
  destruct (try_catch _ _ w) as [[a|e] w1]; [|reflexivity].
  apply IH. lia.
Qed.

Lemma run_limit_le (limit : limit_opt) (n : nat) : (run_limit limit n <= n)%nat.
Proof. destruct limit as [| |l]; simpl; try lia. destruct (0 <? l)%Z; lia. Qed.

Lemma migrate_each_ok (cfg : config) (os : list order) (w : world) :
  fst (migrate_each cfg os w) = Ok tt.
Proof.
  revert w; induction os as [|o r IH]; intro w; simpl; [reflexivity|].
  unfold bind at 1, try_catch.
  destruct (migrateOrder cfg o w) as [[[]|e] w1]; simpl; [apply IH|apply IH].
Qed.

Lemma try_catch_ignore (m : M unit) (w : world) :
  try_catch m (fun _ => ret tt) w = (Ok tt, snd (m w)).
Proof. unfold try_catch, ret. destruct (m w) as [[[]|e] w']; reflexivity. Qed.

(** [run] processes exactly the first [run_limit limit (length orders)]
    orders, in order, each through [migrateOrder] with its error caught,
    and always completes: a missing, zero, negative or NaN limit processes
    all orders, a positive one at most that many. *)
Theorem run_first_orders (cfg : config) (limit : limit_opt) (orders : list order)
    (w : world) :
  run cfg limit orders w
  = (Ok tt, snd (migrate_each cfg (firstn (run_limit limit (List.length orders)) orders) w)).
Proof.
  unfold run. rewrite run_loop_eq by (pose proof (run_limit_le limit (List.length orders)); lia).
  simpl. pose proof (migrate_each_ok cfg (firstn (run_limit limit (List.length orders)) orders) w).
  destruct (migrate_each _ _ w) as [r w']. simpl in *. now subst.
Qed.

(** ** Sales of other numbers are untouched *)

Lemma count_sales_app_other (sn sn' : string) (w : world) (sid : Z) :
  sn' <> sn ->
  List.length (filter (fun s => String.eqb (sale_saleNumber s) sn')
     (sales w ++ [{| sale_saleNumber := sn; saleId := sid; saleAttachments := [] |}]))
  = count_sales sn' w.
Proof.
  intro Hne. unfold count_sales. rewrite filter_app, length_app. simpl.
  assert (Hf : String.eqb sn sn' = false) by (apply String.eqb_neq; congruence).
  rewrite Hf. simpl. lia.
Qed.

Lemma migrate_write_other (cfg : config) (o : order) (sn sn' : string) (cid : Z)
    (lines : list sale_line) (tot : totals) (w : world) :
  sn' <> sn ->
  count_sales sn' (snd (migrate_write cfg o sn cid lines tot w)) = count_sales sn' w.
Proof.
  intro Hne. unfold migrate_write.
  destruct (dryRun cfg); [reflexivity|].
  unfold bind at 1. rewrite findSaleByNumber_eq. cbv beta iota.
  destruct (if faults w (SearchSale sn) then None else _) as [s|].
  - destruct (negb _); [|reflexivity].
    rewrite attach_summary_eq. simpl.
    destruct (faults w _); [reflexivity|]. unfold count_sales; simpl. apply count_attach.
  - unfold bind at 1. rewrite api_createSale_eq. simpl.
    destruct (faults w (CreateSale sn)); [reflexivity|].
    match goal with
    | |- context [bind (pay_all ?sid ?ps) _ ?w2] =>
        destruct (pay_all_frame sid ps w2) as [new [Hf _]];
        unfold frame in Hf; unfold bind;
        destruct (pay_all sid ps w2) as [[[]|e] w3]; simpl in Hf; subst w3
    end.
    + rewrite attach_summary_eq. simpl.
      destruct (faults w _); simpl.
      * exact (count_sales_app_other sn sn' w (next_id w) Hne).
      * unfold count_sales at 1; simpl. rewrite count_attach.
        exact (count_sales_app_other sn sn' w (next_id w) Hne).
    + exact (count_sales_app_other sn sn' w (next_id w) Hne).
Qed.

Lemma migrateOrder_other (cfg : config) (o : order) (sn' : string) (w : world) :
  sn' <> saleNumberOf o ->
  count_sales sn' (snd (migrateOrder cfg o w)) = count_sales sn' w.
Proof.
  intro Hne.
  destruct (getOrCreateCustomer_frame o w) as (Hs & _).
  destruct (migrateOrder_shape cfg o w) as [[e He]|(cid & lines & tot & ev & _ & _ & He)];
    rewrite He; simpl.
  - unfold count_sales. now rewrite Hs.
  - rewrite migrate_write_other by exact Hne.
    unfold count_sales; simpl. now rewrite Hs.
Qed.

Lemma migrate_each_one_sale (cfg : config) (os : list order) :
  dryRun cfg = false ->
  forall w, (forall sn, faults w (SearchSale sn) = false) ->
  (forall sn, (count_sales sn w <= 1)%nat) ->
  forall sn, (count_sales sn (snd (migrate_each cfg os w)) <= 1)%nat.
Proof.
  intro Hd. induction os as [|o r IH]; intros w Hs Hc; simpl; [exact Hc|].
  unfold bind at 1. rewrite try_catch_ignore.
  pose proof (migrateOrder_props cfg o w Hd) as Hp. simpl in Hp.
  pose proof (fun sn' => migrateOrder_other cfg o sn' w) as Ho.
  destruct (migrateOrder cfg o w) as [r0 w1]. simpl in *.
  destruct Hp as (Hf & _ & Hle & Hkeep & _).
  apply IH.
  - intro sn. rewrite Hf. apply Hs.
  - intro sn. destruct (string_dec sn (saleNumberOf o)) as [->|Hne].
    + pose proof (Hc (saleNumberOf o)) as Hc0.
      destruct (count_sales (saleNumberOf o) w) as [|[|n]] eqn:Hcw; [lia| |lia].
      destruct (Hkeep (Hs _) ltac:(lia)) as [Heq _]. lia.
    + rewrite (Ho sn Hne). apply Hc.
Qed.

(** Outside dry-run, when no search of the ledger fails, a whole [run]
    keeps at most one sale per sale number: orders repeated in the batch,
    or already migrated, add no second sale. *)
Theorem run_one_sale_per_number (cfg : config) (limit : limit_opt) (orders : list order)
    (w : world) :
  dryRun cfg = false ->
  (forall sn, faults w (SearchSale sn) = false) ->
  (forall sn, (count_sales sn w <= 1)%nat) ->
  forall sn, (count_sales sn (snd (run cfg limit orders w)) <= 1)%nat.
Proof.
  intros Hd Hs Hc sn. unfold run.
  rewrite run_loop_eq by (pose proof (run_limit_le limit (List.length orders)); lia).
  now apply migrate_each_one_sale.
Qed.

Lemma run_one_sale_per_number_witness :
  (count_sales "#3403"%string
     (snd (run (default_config false) LimitNull
             [sample_order; with_email sample_order "kari@example.no"%string; sample_order]
             empty_world)) <= 1)%nat.
Proof.
  apply (run_one_sale_per_number (default_config false) LimitNull
           [sample_order; with_email sample_order "kari@example.no"%string; sample_order]
           empty_world).
  - reflexivity.
  - intro sn. reflexivity.
  - intro sn. unfold count_sales. simpl. lia.
Defined.

(** ** [getOrCreateCustomer] *)

Lemma getOrCreateCustomer_events (o : order) (w : world) :
  let w' := snd (getOrCreateCustomer o w) in
  sales w' = sales w /\ faults w' = faults w
  /\ exists new, trace w' = new ++ trace w /\ forallb customer_event new = true.
Proof.
  unfold getOrCreateCustomer, bind, gets, ret, modify.
  destruct (assoc_find (getCustomerKey o) (customerCache w)) as [c|].
  - simpl. repeat split; auto. log_prefix.
  - destruct (String.eqb (customer_email o) EmptyString).
    + unfold api_createCustomer. rewrite remote_eq.
      destruct (faults w (CreateCustomer (customer_email o))); simpl;
        (repeat split; auto; log_prefix).
    + unfold try_catch, api_getCustomers. rewrite remote_eq.
      destruct (faults w GetCustomers) eqn:Hg; simpl.
      * unfold api_createCustomer. rewrite remote_eq. simpl.
        destruct (faults w (CreateCustomer (customer_email o))); simpl;
          (repeat split; auto; log_prefix).
      * destruct (find _ (contacts w)) as [c|]; simpl.
        -- repeat split; auto. log_prefix.
        -- unfold api_createCustomer. rewrite remote_eq. simpl.
           destruct (faults w (CreateCustomer (customer_email o))); simpl;
             (repeat split; auto; log_prefix).
Qed.

Lemma assoc_find_cache_set (k : string) (c : contact) (m : list (string * contact)) :
  assoc_find k (cache_set k c m) = Some c.
Proof. unfold cache_set. simpl. now rewrite String.eqb_refl. Qed.

Lemma getOrCreateCustomer_cached (o : order) (w : world) (c : contact) (w1 : world) :
  getOrCreateCustomer o w = (Ok c, w1) ->
  assoc_find (getCustomerKey o) (customerCache w1) = Some c.
Proof.
  unfold getOrCreateCustomer, bind, gets, ret, modify.
  destruct (assoc_find (getCustomerKey o) (customerCache w)) as [c0|] eqn:Hc.
  - intro H. injection H as <- <-. exact Hc.
  - destruct (String.eqb (customer_email o) EmptyString).
    + unfold api_createCustomer. rewrite remote_eq.
      destruct (faults w (CreateCustomer (customer_email o))); simpl;
        intro H; [discriminate|]. injection H as <- <-. apply assoc_find_cache_set.
    + unfold try_catch, api_getCustomers. rewrite remote_eq.
      destruct (faults w GetCustomers) eqn:Hg; simpl.
      * unfold api_createCustomer. rewrite remote_eq. simpl.
        destruct (faults w (CreateCustomer (customer_email o))); simpl;
          intro H; [discriminate|]. injection H as <- <-. apply assoc_find_cache_set.
      * destruct (find _ (contacts w)) as [c0|]; simpl.
        -- intro H. injection H as <- <-. apply assoc_find_cache_set.
        -- unfold api_createCustomer. rewrite remote_eq. simpl.
           destruct (faults w (CreateCustomer (customer_email o))); simpl;
             intro H; [discriminate|]. injection H as <- <-. apply assoc_find_cache_set.
Qed.



(** [getOrCreateCustomer] for an order with an email and no cached customer,
    when listing the customers works and the emails are ASCII text: it
    returns the first listed customer whose email equals the order's up to
    case, after one [getCustomers] call, creates nothing and caches that
    customer. *)
Theorem getOrCreateCustomer_existing (o : order) (w : world) (c : contact) :
  assoc_find (getCustomerKey o) (customerCache w) = None ->
  customer_email o <> EmptyString ->
  is_ascii (customer_email o) = true ->
  forallb (fun c => is_ascii (contact_email c)) (contacts w) = true ->
  faults w GetCustomers = false ->
  find (fun c => String.eqb (lower (contact_email c)) (lower (customer_email o))) (contacts w)
  = Some c ->
  getOrCreateCustomer o w
  = (Ok c, set_cache (cache_set (getCustomerKey o) c (customerCache w))
             (set_trace (Remote GetCustomers :: trace w) w)).
Proof.
  intros Hc He _ _ Hg Hf.
  unfold getOrCreateCustomer, bind, gets, ret, modify. rewrite Hc.
  apply String.eqb_neq in He. rewrite He.
  unfold try_catch, api_getCustomers. rewrite remote_eq, Hg. simpl.
  rewrite Hf. reflexivity.
Qed.

Lemma getOrCreateCustomer_existing_witness :
  getOrCreateCustomer sample_order (world_with_kari false)
  = (Ok {| contactId := Some 41%Z; contact_email := "kari@example.no" |},
     set_cache (cache_set "kari@example.no"
                  {| contactId := Some 41%Z; contact_email := "kari@example.no" |} [])
       (set_trace [Remote GetCustomers] (world_with_kari false))).
Proof.
  exact (getOrCreateCustomer_existing sample_order (world_with_kari false)
           {| contactId := Some 41%Z; contact_email := "kari@example.no" |}
           eq_refl ltac:(discriminate) eq_refl eq_refl eq_refl eq_refl).
Defined.



(** ** Dry-run *)

Lemma customer_events_no_sales (l : list event) :
  forallb customer_event l = true -> forallb (fun e => negb (writes_sales e)) l = true.
Proof.
  induction l as [|e r IH]; simpl; [reflexivity|].
  intro H. apply andb_prop in H as [He Hr]. rewrite (IH Hr), andb_true_r.
  destruct e as [[]| |]; simpl in *; congruence.
Qed.

Lemma migrateOrder_dry (cfg : config) (o : order) (w : world) :
  dryRun cfg = true ->
  let w' := snd (migrateOrder cfg o w) in
  sales w' = sales w
  /\ exists new, trace w' = new ++ trace w
                 /\ forallb (fun e => negb (writes_sales e)) new = true.
Proof.
  intros Hd. pose proof (getOrCreateCustomer_events o w) as Hev.
  unfold migrateOrder. cbv zeta.
  destruct (getOrCreateCustomer o w) as [[c|e] w1] eqn:E; simpl in Hev;
    destruct Hev as (Hs & _ & new1 & Ht & Hn);
    apply customer_events_no_sales in Hn.
  - rewrite (bind_Ok _ _ _ _ _ E).
    destruct (contactId c) as [cid|]; [|simpl; split; [exact Hs|exists new1; auto]].
    destruct (buildSaleLines cfg o) as [|l ls]; [simpl; split; [exact Hs|exists new1; auto]|].
    unfold bind at 1, log, modify, ret, migrate_write. rewrite Hd.
    destruct (Qlt_bool 2 _); simpl; (split; [exact Hs|]).
    + eexists (_ :: _ :: new1). rewrite Ht. split; [reflexivity|]. simpl. exact Hn.
    + eexists (_ :: new1). rewrite Ht. split; [reflexivity|]. simpl. exact Hn.
  - rewrite (bind_Err _ _ _ _ _ E). simpl. split; [exact Hs|]. exists new1. auto.
Qed.

Lemma migrate_each_cons (cfg : config) (o : order) (r : list order) (w : world) :
  migrate_each cfg (o :: r) w = migrate_each cfg r (snd (migrateOrder cfg o w)).
Proof. simpl. unfold bind. rewrite try_catch_ignore. reflexivity. Qed.

Lemma migrate_each_dry (cfg : config) (os : list order) :
  dryRun cfg = true ->
  forall w, let w' := snd (migrate_each cfg os w) in
  sales w' = sales w
  /\ exists new, trace w' = new ++ trace w
                 /\ forallb (fun e => negb (writes_sales e)) new = true.
Proof.
  intro Hd. induction os as [|o r IH]; intro w; cbv zeta.
  - split; [reflexivity|]. exists []. split; reflexivity.
  - rewrite migrate_each_cons.
    destruct (migrateOrder_dry cfg o w Hd) as (Hs1 & new1 & Ht1 & Hn1).
    destruct (IH (snd (migrateOrder cfg o w))) as (Hs2 & new2 & Ht2 & Hn2).
    split; [congruence|]. exists (new2 ++ new1). split.
    + rewrite Ht2, Ht1. apply app_assoc.
    + rewrite forallb_app, Hn1, Hn2. reflexivity.
Qed.

(** A dry-run [run] leaves the sales of the ledger as they were and issues
    no [createSale], [addSalePayment] or [attachFileToSale]; its only
    remote writes are customer creations. *)
Theorem run_dry_no_sales (cfg : config) (limit : limit_opt) (orders : list order)
    (w : world) :
  dryRun cfg = true ->
  let w' := snd (run cfg limit orders w) in
  sales w' = sales w
  /\ exists new, trace w' = new ++ trace w
                 /\ forallb (fun e => negb (writes_sales e)) new = true.
Proof.
  intros Hd. unfold run.
  rewrite run_loop_eq by (pose proof (run_limit_le limit (List.length orders)); lia).
  now apply migrate_each_dry.
Qed.

Lemma run_dry_no_sales_witness :
  sales (snd (run (default_config true) LimitNull [sample_order; mismatch_order] empty_world))
  = [].
Proof.
  exact (proj1 (run_dry_no_sales (default_config true) LimitNull
                  [sample_order; mismatch_order] empty_world eq_refl)).
Defined.

(** ** A migrated order run again *)

Lemma warn_eq (b : bool) (d : Q) (X : M unit) (w : world) :
  bind (if b then log (WarnTotals d) else ret tt) (fun _ => X) w
  = X (set_trace ((if b then [WarnTotals d] else []) ++ trace w) w).
Proof. destruct b; reflexivity. Qed.

Lemma getOrCreateCustomer_hit (o : order) (w : world) (c : contact) :
  assoc_find (getCustomerKey o) (customerCache w) = Some c ->
  getOrCreateCustomer o w = (Ok c, w).
Proof. intro Hc. unfold getOrCreateCustomer, bind, gets. rewrite Hc. reflexivity. Qed.

Lemma prefix_refl (s : string) : String.prefix s s = true.
Proof.
  induction s as [|c r IH]; simpl; [reflexivity|].
  destruct (ascii_dec c c) as [_|n]; [exact IH|congruence].
Qed.

Lemma includes_refl (s : string) : includes s s = true.
Proof.
  destruct s as [|c r]; [reflexivity|].
  change (String.prefix (String c r) (String c r) || includes r (String c r) = true).
  now rewrite prefix_refl.
Qed.

Lemma filter_map_attach (sn : string) (sid : Z) (fname : string) (ss : list sale) :
  filter (fun s => String.eqb (sale_saleNumber s) sn) (map (attach_to sid fname) ss)
  = map (attach_to sid fname) (filter (fun s => String.eqb (sale_saleNumber s) sn) ss).
Proof.
  induction ss as [|s r IH]; simpl; [reflexivity|].
  assert (Hn : sale_saleNumber (attach_to sid fname s) = sale_saleNumber s)
    by (unfold attach_to; destruct (saleId s =? sid)%Z; reflexivity).
  rewrite Hn. destruct (String.eqb (sale_saleNumber s) sn); simpl; now rewrite IH.
Qed.

Lemma attach_to_self (fname : string) (s : sale) :
  existsb (fun url => includes url fname) (saleAttachments (attach_to (saleId s) fname s)) = true.
Proof.
  unfold attach_to. rewrite Z.eqb_refl. simpl.
  rewrite existsb_app. simpl. rewrite includes_refl. apply orb_true_r.
Qed.

Lemma migrate_write_attached (cfg : config) (o : order) (sn : string) (cid : Z)
    (lines : list sale_line) (tot : totals) (w w1 : world) :
  dryRun cfg = false ->
  faults w (SearchSale sn) = false ->
  (forall sid, faults w (AttachFileToSale sid (pdf_filename o)) = false) ->
  migrate_write cfg o sn cid lines tot w = (Ok tt, w1) ->
  attached sn (pdf_filename o) w1.
Proof.
  intros Hd Hs Ha. unfold migrate_write. rewrite Hd.
  unfold bind at 1. rewrite findSaleByNumber_eq, Hs. cbv beta iota.
  destruct (hd_error (filter _ (sales w))) as [s|] eqn:Hh.
  - destruct (existsb (fun url => includes url (pdf_filename o)) (saleAttachments s)) eqn:He;
      simpl.
    + intro H. injection H as <-. exists s. split; assumption.
    + rewrite attach_summary_eq. simpl. rewrite Ha. intro H. injection H as <-.
      exists (attach_to (saleId s) (pdf_filename o) s). simpl. split.
      * rewrite filter_map_attach.
        destruct (filter _ (sales w)); simpl in *; congruence.
      * apply attach_to_self.
  - unfold bind at 1. rewrite api_createSale_eq. simpl.
    destruct (faults w (CreateSale sn)); [discriminate|].
    match goal with
    | |- context [bind (pay_all ?sid ?ps) _ ?w2] =>
        destruct (pay_all_frame sid ps w2) as [new [Hf _]];
        unfold frame in Hf; unfold bind;
        destruct (pay_all sid ps w2) as [[[]|e] w3]; simpl in Hf; subst w3
    end; [|discriminate].
    rewrite attach_summary_eq. simpl. rewrite Ha. intro H. injection H as <-.
    unfold attached. simpl.
    rewrite filter_map_attach, filter_app.
    destruct (filter _ (sales w)); [|discriminate]. simpl. rewrite String.eqb_refl. simpl.
    eexists. split; [reflexivity|].
    exact (attach_to_self (pdf_filename o)
             {| sale_saleNumber := sn; saleId := next_id w; saleAttachments := [] |}).
Qed.

Lemma migrate_write_cache (cfg : config) (o : order) (sn : string) (cid : Z)
    (lines : list sale_line) (tot : totals) (w : world) :
  customerCache (snd (migrate_write cfg o sn cid lines tot w)) = customerCache w.
Proof.
  unfold migrate_write.
  destruct (dryRun cfg); [reflexivity|].
  unfold bind at 1. rewrite findSaleByNumber_eq. cbv beta iota.
  destruct (if faults w (SearchSale sn) then None else _) as [s|].
  - destruct (negb _); [|reflexivity].
    rewrite attach_summary_eq. simpl. destruct (faults w _); reflexivity.
  - unfold bind at 1. rewrite api_createSale_eq. simpl.
    destruct (faults w (CreateSale sn)); [reflexivity|].
    match goal with
    | |- context [bind (pay_all ?sid ?ps) _ ?w2] =>
        destruct (pay_all_frame sid ps w2) as [new [Hf _]];
        unfold frame in Hf; unfold bind;
        destruct (pay_all sid ps w2) as [[[]|e] w3]; simpl in Hf; subst w3
    end; [|reflexivity].
    rewrite attach_summary_eq. simpl. destruct (faults w _); reflexivity.
Qed.

Lemma migrate_write_found (cfg : config) (o : order) (sn : string) (cid : Z)
    (lines : list sale_line) (tot : totals) (w : world) :
  dryRun cfg = false ->
  faults w (SearchSale sn) = false ->
  attached sn (pdf_filename o) w ->
  migrate_write cfg o sn cid lines tot w
  = (Ok tt, set_trace (Remote (SearchSale sn) :: trace w) w).
Proof.
  intros Hd Hs (s & Hh & He). unfold migrate_write. rewrite Hd.
  unfold bind at 1. rewrite findSaleByNumber_eq, Hs. cbv beta iota.
  rewrite Hh, He. reflexivity.
Qed.

(** Outside dry-run, once [migrateOrder] has succeeded for an order, and
    neither the search for its sale number nor the upload of its summary
    fails, processing the order again issues one call, the search, and
    changes nothing else: no second sale, payment or upload (at most the
    totals warning is logged again). *)
Theorem migrateOrder_rerun (cfg : config) (o : order) (w w1 : world) :
  dryRun cfg = false ->
  faults w (SearchSale (saleNumberOf o)) = false ->
  (forall sid, faults w (AttachFileToSale sid (pdf_filename o)) = false) ->
  migrateOrder cfg o w = (Ok tt, w1) ->
  exists ev, calls_of ev = []
             /\ migrateOrder cfg o w1
                = (Ok tt, set_trace (Remote (SearchSale (saleNumberOf o)) :: ev ++ trace w1) w1).
Proof.
  intros Hd Hs Ha H1.
  pose proof (migrateOrder_props cfg o w Hd) as Hp. rewrite H1 in Hp.
  destruct Hp as (Hf & _).
  pose proof (getOrCreateCustomer_events o w) as (_ & Hfc & _).
  unfold migrateOrder in *. cbv zeta in *.
  destruct (getOrCreateCustomer o w) as [[c|e] w1'] eqn:E;
    [|rewrite (bind_Err _ _ _ _ _ E) in H1; discriminate].
  simpl in Hfc.
  rewrite (bind_Ok _ _ _ _ _ E) in H1.
  pose proof (getOrCreateCustomer_cached o w c w1' E) as Hc.
  destruct (contactId c) as [cid|] eqn:Hcid; [|discriminate].
  destruct (buildSaleLines cfg o) as [|l ls] eqn:Hl; [discriminate|].
  rewrite warn_eq in H1.
  set (b := Qlt_bool 2 _) in *. set (d := (_ - _)%Q) in *.
  pose proof (migrate_write_cache cfg o (saleNumberOf o) cid (l :: ls)
                (calculateTotals (l :: ls))
                (set_trace ((if b then [WarnTotals d] else []) ++ trace w1') w1')) as Hcache.
  rewrite H1 in Hcache. simpl in Hcache.
  apply migrate_write_attached in H1;
    [|exact Hd|simpl; rewrite Hfc; exact Hs|intro sid; simpl; rewrite Hfc; apply Ha].
  assert (Hhit : assoc_find (getCustomerKey o) (customerCache w1) = Some c)
    by (rewrite Hcache; exact Hc).
  rewrite (bind_Ok _ _ _ _ _ (getOrCreateCustomer_hit o w1 c Hhit)), Hcid, warn_eq.
  rewrite migrate_write_found; [| exact Hd | simpl; rewrite Hf; exact Hs | exact H1].
  exists (if b then [WarnTotals d] else []). split.
  - destruct b; reflexivity.
  - reflexivity.
Qed.

Lemma migrateOrder_rerun_witness :
  exists ev, calls_of ev = []
  /\ migrateOrder (default_config false) sample_order
       (snd (migrateOrder (default_config false) sample_order empty_world))
     = (Ok tt, set_trace (Remote (SearchSale "#3403") :: ev
                          ++ trace (snd (migrateOrder (default_config false) sample_order
                                           empty_world)))
                 (snd (migrateOrder (default_config false) sample_order empty_world))).
Proof.
  exact (migrateOrder_rerun (default_config false) sample_order empty_world
           (snd (migrateOrder (default_config false) sample_order empty_world))
           eq_refl eq_refl (fun _ => eq_refl) eq_refl).
Defined.

(** ** An order whose sale already exists *)

Lemma migrate_write_existing (cfg : config) (o : order) (sn : string) (cid : Z)
    (lines : list sale_line) (tot : totals) (w : world) :
  dryRun cfg = false ->
  faults w (SearchSale sn) = false ->
  (1 <= count_sales sn w)%nat ->
  let '(r, w') := migrate_write cfg o sn cid lines tot w in
  r = Ok tt /\ count_sales sn w' = count_sales sn w
  /\ exists new, trace w' = new ++ trace w
                 /\ forallb (fun e => negb (pays_or_creates_sale e)) new = true.
Proof.
  intros Hd Hs Hc. unfold migrate_write. rewrite Hd.
  unfold bind at 1. rewrite findSaleByNumber_eq, Hs. cbv beta iota.
  unfold count_sales in Hc.
  destruct (filter _ (sales w)) as [|s ss] eqn:Hf; simpl in Hc; [lia|]. simpl.
  destruct (negb _); simpl.
  - rewrite attach_summary_eq. simpl.
    destruct (faults w (AttachFileToSale (saleId s) (pdf_filename o))); simpl.
    + split; [reflexivity|]. split; [reflexivity|].
      eexists [_; _]. split; reflexivity.
    + split; [reflexivity|]. split.
      * unfold count_sales; simpl. rewrite count_attach. reflexivity.
      * eexists [_; _]. split; reflexivity.
  - split; [reflexivity|]. split; [reflexivity|]. eexists [_]. split; reflexivity.
Qed.

Lemma customer_events_no_payment (l : list event) :
  forallb customer_event l = true ->
  forallb (fun e => negb (pays_or_creates_sale e)) l = true.
Proof.
  induction l as [|e r IH]; simpl; [reflexivity|].
  intro H. apply andb_prop in H as [He Hr]. rewrite (IH Hr), andb_true_r.
  destruct e as [[]| |]; simpl in *; congruence.
Qed.

(** Outside dry-run, when a sale under the order's number already exists
    and the search for it works, [migrateOrder] creates no sale and
    registers no payment (at most it uploads the summary): payments missing
    from an existing sale are never added. *)
Theorem migrateOrder_existing_sale (cfg : config) (o : order) (w : world) :
  dryRun cfg = false ->
  faults w (SearchSale (saleNumberOf o)) = false ->
  (1 <= count_sales (saleNumberOf o) w)%nat ->
  let '(r, w') := migrateOrder cfg o w in
  count_sales (saleNumberOf o) w' = count_sales (saleNumberOf o) w
  /\ exists new, trace w' = new ++ trace w
                 /\ forallb (fun e => negb (pays_or_creates_sale e)) new = true.
Proof.
  intros Hd Hs Hc. pose proof (getOrCreateCustomer_events o w) as Hev.
  unfold migrateOrder. cbv zeta.
  destruct (getOrCreateCustomer o w) as [[c|e] w1] eqn:E; simpl in Hev;
    destruct Hev as (Hsa & Hfa & new1 & Ht & Hn);
    apply customer_events_no_payment in Hn;
    assert (Hc1 : count_sales (saleNumberOf o) w1 = count_sales (saleNumberOf o) w)
      by (unfold count_sales; now rewrite Hsa).
  - rewrite (bind_Ok _ _ _ _ _ E).
    destruct (contactId c) as [cid|];
      [|simpl; split; [exact Hc1|exists new1; auto]].
    destruct (buildSaleLines cfg o) as [|l ls];
      [simpl; split; [exact Hc1|exists new1; auto]|].
    rewrite warn_eq.
    set (ev0 := if Qlt_bool 2 _ then _ else _).
    pose proof (migrate_write_existing cfg o (saleNumberOf o) cid (l :: ls)
                  (calculateTotals (l :: ls)) (set_trace (ev0 ++ trace w1) w1) Hd
                  ltac:(simpl; rewrite Hfa; exact Hs)
                  ltac:(rewrite count_sales_trace, Hc1; exact Hc)) as Hw.
    destruct (migrate_write _ _ _ _ _ _ _) as [r w'].
    destruct Hw as (_ & Hc2 & new2 & Ht2 & Hn2).
    rewrite count_sales_trace, Hc1 in Hc2. split; [exact Hc2|].
    exists (new2 ++ ev0 ++ new1). split.
    + rewrite Ht2. simpl. rewrite Ht. now rewrite !app_assoc.
    + rewrite !forallb_app, Hn2, Hn. unfold ev0. destruct (Qlt_bool 2 _); reflexivity.
  - rewrite (bind_Err _ _ _ _ _ E). simpl. split; [exact Hc1|]. exists new1. auto.
Qed.

Lemma migrateOrder_existing_sale_witness :
  let '(r, w') := migrateOrder (default_config false) sample_order ledger_with_unpaid_3403 in
  count_sales "#3403" w' = count_sales "#3403" ledger_with_unpaid_3403
  /\ exists new, trace w' = new ++ trace ledger_with_unpaid_3403
                 /\ forallb (fun e => negb (pays_or_creates_sale e)) new = true.
Proof.
  exact (migrateOrder_existing_sale (default_config false) sample_order ledger_with_unpaid_3403
           eq_refl eq_refl ltac:(unfold count_sales; simpl; lia)).
Defined.

(** ** [buildSaleLines] and [calculateTotals] *)








(** ** [extractOrderId] *)

Section ExtractOrderId.
Local Open Scope Z_scope.

Lemma digit_char (d : Z) :
  0 <= d < 10 ->
  is_digit (ascii_of_nat (48 + Z.to_nat d)) = true
  /\ digit_val (ascii_of_nat (48 + Z.to_nat d)) = d.
Proof.
  intro Hd. unfold is_digit, digit_val.
  rewrite nat_ascii_embedding by lia.
  split; [apply andb_true_intro; split; apply Nat.leb_le; lia | lia].
Qed.

Lemma digits_fuel_S (f : nat) (n : Z) (acc : string) :
  digits_fuel (S f) n acc
  = if n <? 10 then String (ascii_of_nat (48 + Z.to_nat (n mod 10))) acc
    else digits_fuel f (n / 10) (String (ascii_of_nat (48 + Z.to_nat (n mod 10))) acc).
Proof. reflexivity. Qed.

Lemma take_digits_digit (c : ascii) (r : string) (a : Z) (k : nat) :
  is_digit c = true -> take_digits (String c r) a k = take_digits r (a * 10 + digit_val c) (S k).
Proof. intro H. cbn [take_digits]. now rewrite H. Qed.

Lemma only_digits_digit (c : ascii) (r : string) :
  is_digit c = true -> Webhook.only_digits (String c r) = String c (Webhook.only_digits r).
Proof. intro H. cbn [Webhook.only_digits]. now rewrite H. Qed.

Lemma only_digits_nondigit (c : ascii) (r : string) :
  is_digit c = false -> Webhook.only_digits (String c r) = Webhook.only_digits r.
Proof. intro H. cbn [Webhook.only_digits]. now rewrite H. Qed.

Lemma take_digits_digits_fuel (f : nat) :
  forall n acc a k, 0 <= n -> n < 10 ^ Z.of_nat f ->
  exists j, take_digits (digits_fuel f n acc) a k
            = take_digits acc (a * 10 ^ Z.of_nat j + n) (k + j).
Proof.
  induction f as [|f IH]; intros n acc a k Hn Hlt.
  - simpl in Hlt. assert (n = 0) by lia. subst n. exists 0%nat.
    cbn [digits_fuel]. rewrite Nat.add_0_r.
    replace (a * 10 ^ Z.of_nat 0 + 0) with a by (simpl; ring). reflexivity.
  - destruct (digit_char (n mod 10) ltac:(apply Z.mod_pos_bound; lia)) as [Hdig Hval].
    rewrite digits_fuel_S.
    remember (ascii_of_nat (48 + Z.to_nat (n mod 10))) as c eqn:Hc. clear Hc.
    destruct (n <? 10) eqn:Hs.
    + apply Z.ltb_lt in Hs. exists 1%nat. rewrite take_digits_digit by exact Hdig.
      rewrite Hval, Z.mod_small by lia.
      replace (a * 10 ^ Z.of_nat 1 + n) with (a * 10 + n) by (rewrite Z.pow_1_r; ring).
      replace (k + 1)%nat with (S k) by lia. reflexivity.
    + apply Z.ltb_ge in Hs.
      destruct (IH (n / 10) (String c acc) a k) as [j Hj].
      * apply Z.div_pos; lia.
      * apply Z.div_lt_upper_bound; [lia|]. rewrite Nat2Z.inj_succ, Z.pow_succ_r in Hlt by lia.
        lia.
      * exists (S j). rewrite Hj, take_digits_digit by exact Hdig. rewrite Hval.
        replace (k + S j)%nat with (S (k + j)) by lia.
        replace (a * 10 ^ Z.of_nat (S j) + n) with ((a * 10 ^ Z.of_nat j + n / 10) * 10 + n mod 10);
          [reflexivity|].
        rewrite Nat2Z.inj_succ, Z.pow_succ_r by lia.
        pose proof (Z.div_mod n 10 ltac:(lia)). lia.
Qed.

Lemma only_digits_digits_fuel (f : nat) :
  forall n acc, Webhook.only_digits (digits_fuel f n acc)
                = digits_fuel f n (Webhook.only_digits acc).
Proof.
  induction f as [|f IH]; intros n acc; [reflexivity|].
  destruct (digit_char (n mod 10) ltac:(apply Z.mod_pos_bound; lia)) as [Hdig _].
  rewrite !digits_fuel_S.
  remember (ascii_of_nat (48 + Z.to_nat (n mod 10))) as c eqn:Hc. clear Hc.
  destruct (n <? 10).
  - now rewrite only_digits_digit.
  - rewrite IH. now rewrite only_digits_digit.
Qed.

Lemma digits_fuel_nonempty (f : nat) :
  forall n acc, acc <> EmptyString -> digits_fuel f n acc <> EmptyString.
Proof.
  induction f as [|f IH]; intros n acc H; [exact H|]. rewrite digits_fuel_S.
  remember (ascii_of_nat (48 + Z.to_nat (n mod 10))) as c eqn:Hc. clear Hc.
  destruct (n <? 10); [discriminate|]. apply IH. discriminate.
Qed.

Lemma abs_lt_pow10 (n : Z) :
  Z.abs n < 10 ^ Z.of_nat (S (Z.to_nat (Z.log2 (Z.abs n)))).
Proof.
  rewrite Nat2Z.inj_succ, Z2Nat.id by apply Z.log2_nonneg.
  destruct (Z.eq_dec (Z.abs n) 0) as [H0|H0].
  - rewrite H0. simpl. lia.
  - assert (Hp : 0 < Z.abs n) by lia.
    pose proof (Z.log2_spec (Z.abs n) Hp) as [_ Hu].
    eapply Z.lt_le_trans; [exact Hu|].
    apply Z.pow_le_mono_l. split; [lia|lia].
Qed.

(** The digits of [String(n)] read back by [parseInt]. *)
Lemma parseInt_digits_z_to_dec (n : Z) :
  Webhook.parseInt_digits (Webhook.only_digits (z_to_dec n)) = Some (Z.abs n).
Proof.
  assert (Hod : Webhook.only_digits (z_to_dec n)
                = digits_fuel (S (Z.to_nat (Z.log2 (Z.abs n)))) (Z.abs n) EmptyString).
  { unfold z_to_dec. cbv zeta. destruct (n <? 0);
      [rewrite only_digits_nondigit by reflexivity|];
      rewrite only_digits_digits_fuel; reflexivity. }
  rewrite Hod. unfold Webhook.parseInt_digits.
  destruct (String.eqb (digits_fuel (S (Z.to_nat (Z.log2 (Z.abs n)))) (Z.abs n) EmptyString)
              EmptyString) eqn:He.
  - apply String.eqb_eq in He. exfalso. revert He.
    rewrite digits_fuel_S.
    remember (ascii_of_nat _) as c eqn:Hc. clear Hc.
    destruct (Z.abs n <? 10); [discriminate|]. apply digits_fuel_nonempty. discriminate.
  - destruct (take_digits_digits_fuel (S (Z.to_nat (Z.log2 (Z.abs n)))) (Z.abs n)
                EmptyString 0 0 ltac:(lia) (abs_lt_pow10 n)) as [j Hj].
    rewrite Hj. simpl. reflexivity.
Qed.


Lemma take_digits_nonneg (s : string) :
  forall a k, 0 <= a -> 0 <= fst (fst (take_digits s a k)).
Proof.
  induction s as [|c r IH]; intros a k Ha; simpl; [exact Ha|].
  destruct (is_digit c) eqn:Hd; simpl; [|exact Ha].
  apply IH. unfold is_digit in Hd. apply andb_prop in Hd as [H1 _].
  apply Nat.leb_le in H1. unfold digit_val. lia.
Qed.

Lemma parseInt_digits_nonneg (s : string) (n : Z) :
  Webhook.parseInt_digits s = Some n -> 0 <= n.
Proof.
  unfold Webhook.parseInt_digits. destruct (String.eqb s EmptyString); [discriminate|].
  pose proof (take_digits_nonneg s 0 0 ltac:(lia)) as H.
  destruct (take_digits s 0 0) as [[m k] rest]. simpl in H.
  intro E. injection E as <-. exact H.
Qed.

Lemma extractOrderId_nonneg (p : option Webhook.json) (n : Z) :
  Webhook.extractOrderId p = Some n -> 0 <= n.
Proof.
  unfold Webhook.extractOrderId. destruct p as [p|]; [|discriminate].
  destruct (negb (Webhook.jtruthy p)); [discriminate|].
  cbv zeta. set (l := flat_map _ _). clearbody l.
  induction l as [|v r IH]; cbn [Webhook.extractOrderId]; [discriminate|].
  destruct (Webhook.parseInt_digits _) eqn:E.
  - intro H. injection H as <-. exact (parseInt_digits_nonneg _ _ E).
  - exact IH.
Qed.

(** [extractOrderId] on a payload whose [id] is a non-zero integer [n]
    below 2^53 in magnitude (one [JSON.parse] reads exactly) returns [|n|]:
    the digits of [String(n)], so a negative id loses its sign. *)
Theorem extractOrderId_number (fs : list (string * Webhook.json)) (n : Z) :
  Webhook.field "id" fs = Some (Webhook.JNumber n) -> n <> 0 -> Z.abs n < 2 ^ 53 ->
  Webhook.extractOrderId (Some (Webhook.JObject fs)) = Some (Z.abs n).
Proof.
  intros Hf Hn _. unfold Webhook.extractOrderId. simpl. rewrite Hf. simpl.
  assert (Ht : negb (n =? 0) = true) by (apply negb_true_iff, Z.eqb_neq, Hn).
  rewrite Ht. simpl. rewrite parseInt_digits_z_to_dec. reflexivity.
Qed.

Lemma extractOrderId_number_witness :
  Webhook.extractOrderId (Some (Webhook.JObject [("id"%string, Webhook.JNumber (-42))]))
  = Some 42.
Proof. exact (extractOrderId_number [("id"%string, Webhook.JNumber (-42))] (-42) eq_refl
                ltac:(discriminate) ltac:(vm_compute; reflexivity)). Defined.



(** The webhook handlers change the queue only through the orders-paid
    handler, which enqueues a positive id extracted from the body of a
    request whose signature verified; every other request leaves the queue
    as it was. *)
Theorem handler_enqueues_positive (r : Webhook.route) (secret : list Z)
    (rawBody sig : option (list Z)) (body : option Webhook.json)
    (enqueueOrder : Z -> list Z -> option (list Z)) (queue : list Z) :
  let '(st, q') := Webhook.handler r secret rawBody sig body enqueueOrder queue in
     q' = queue
     \/ exists id, r = Webhook.OrdersPaid
                   /\ Webhook.verifyShopifySignature rawBody sig secret = true
                   /\ Webhook.extractOrderId body = Some id /\ 0 < id
                   /\ enqueueOrder id queue = Some q'.
Proof.
  unfold Webhook.handler.
  destruct (Webhook.verifyShopifySignature rawBody sig secret) eqn:Hv; simpl; [|left; reflexivity].
  destruct r; [|left; reflexivity|left; reflexivity].
  destruct (Webhook.extractOrderId body) as [id|] eqn:He; [|left; reflexivity].
  destruct (id =? 0) eqn:Hz; [left; reflexivity|].
  destruct (enqueueOrder id queue) as [q|] eqn:Hq; [|left; reflexivity].
  right. exists id. repeat split; auto.
  pose proof (extractOrderId_nonneg _ _ He). apply Z.eqb_neq in Hz. lia.
Qed.

End ExtractOrderId.

(** ** Routing of [createApp] *)

Section Routing.
Import Paths Server.
Local Open Scope string_scope.

Lemma split_slash_nonempty (s : string) : split_slash s <> [].
Proof.
  destruct s as [|c r]; simpl; [discriminate|].
  destruct (Ascii.eqb c "/"%char); [discriminate|].
  destruct (split_slash r); discriminate.
Qed.

Lemma split_slash_no_slash (s : string) : no_slash s = true -> split_slash s = [s].
Proof.
  induction s as [|c r IH]; simpl; [reflexivity|].
  intro H. apply andb_true_iff in H as [Hc Hr]. apply negb_true_iff in Hc.
  rewrite Hc, (IH Hr). reflexivity.
Qed.


Lemma split_slash_app_any (a r : string) :
  exists l, l <> [] /\ split_slash (a ++ String "/" r) = app l (split_slash r).
Proof.
  induction a as [|c a IH]; simpl.
  - exists [EmptyString]. split; [discriminate|reflexivity].
  - destruct IH as [l [Hl E]]. rewrite E.
    destruct (Ascii.eqb c "/"%char).
    + exists (EmptyString :: l). split; [discriminate|reflexivity].
    + destruct l as [|h t]; [congruence|].
      exists (String c h :: t). split; [discriminate|reflexivity].
Qed.












Lemma dispatch_from_spec (k : nat) (rs : list (http_method * string)) (m : http_method)
    (segs : list string) (i : nat) (ps : list (string * string)) :
  dispatch_from k rs m segs = Some (i, ps) ->
  (k <= i)%nat
  /\ (exists r, nth_error rs (i - k) = Some r /\ route_matches m segs r = Some ps)
  /\ forall j r, (j < i - k)%nat -> nth_error rs j = Some r -> route_matches m segs r = None.
Proof.
  revert k; induction rs as [|r rs IH]; intro k; simpl; [discriminate|].
  destruct (route_matches m segs r) as [ps'|] eqn:E.
  - intro H. injection H as <- <-. rewrite Nat.sub_diag.
    split; [lia|]. split; [exists r; split; [reflexivity|exact E]|].
    intros j r' Hj. lia.
  - intro H. destruct (IH (S k) H) as (Hk & (r' & Hr' & Hm) & Hb).
    split; [lia|].
    replace (i - k)%nat with (S (i - S k)) by lia.
    split; [exists r'; split; assumption|].
    intros [|j] r'' Hj Hn; simpl in Hn.
    + congruence.
    + apply (Hb j r''); [lia|exact Hn].
Qed.

Lemma parse_incremental :
  parse_route "/fiken/sync/companies/:slug/incremental"
  = [Lit "fiken"; Lit "sync"; Lit "companies"; Param "slug"; Lit "incremental"].
Proof. vm_compute. reflexivity. Qed.

Lemma parse_data_type :
  parse_route "/fiken/sync/companies/:slug/:dataType"
  = [Lit "fiken"; Lit "sync"; Lit "companies"; Param "slug"; Param "dataType"].
Proof. vm_compute. reflexivity. Qed.

(** Whatever matches the incremental route matches the [:dataType] route. *)
Lemma incremental_shadowed (m : http_method) (segs : list string) (ps : list (string * string)) :
  route_matches m segs (POST, "/fiken/sync/companies/:slug/incremental") = Some ps ->
  exists ps', route_matches m segs (POST, "/fiken/sync/companies/:slug/:dataType") = Some ps'.
Proof.
  unfold route_matches. cbn [fst snd]. destruct (method_handles POST m); [|discriminate].
  rewrite parse_incremental, parse_data_type.
  intro H.
  destruct segs as [|t1 segs]; [discriminate|]. cbn [match_segs] in H |- *.
  destruct (lower t1 =? lower "fiken"); [|discriminate].
  destruct segs as [|t2 segs]; [discriminate|]. cbn [match_segs] in H |- *.
  destruct (lower t2 =? lower "sync"); [|discriminate].
  destruct segs as [|t3 segs]; [discriminate|]. cbn [match_segs] in H |- *.
  destruct (lower t3 =? lower "companies"); [|discriminate].
  destruct segs as [|t4 segs]; [discriminate|]. cbn [match_segs] in H |- *.
  destruct (t4 =? EmptyString); [discriminate|].
  destruct segs as [|t5 segs]; [discriminate|]. cbn [match_segs] in H |- *.
  destruct t5 as [|c t5]; [discriminate|].
  destruct (lower (String c t5) =? lower "incremental"); [|discriminate].
  destruct segs; [|discriminate].
  eexists. reflexivity.
Qed.

(** Every route but the incremental one handles the request whose path is
    its own pattern. *)
Lemma routes_check :
  forallb (fun i => match nth_error routes i with
                    | Some (rm, p) =>
                        if p =? "/fiken/sync/companies/:slug/incremental" then (i =? 23)%nat
                        else match dispatch rm p with
                             | Some (j, _) => (j =? i)%nat
                             | None => false
                             end
                    | None => true
                    end) (seq 0 (List.length routes)) = true.
Proof. vm_compute. reflexivity. Qed.

Lemma routes_check_at (i : nat) (rm : http_method) (pat : string) :
  nth_error routes i = Some (rm, pat) ->
  (pat = "/fiken/sync/companies/:slug/incremental" -> i = 23%nat)
  /\ (pat <> "/fiken/sync/companies/:slug/incremental" -> exists ps, dispatch rm pat = Some (i, ps)).
Proof.
  intro H.
  assert (Hi : In i (seq 0 (List.length routes))).
  { apply in_seq. split; [lia|]. apply nth_error_Some. congruence. }
  pose proof (proj1 (forallb_forall _ _) routes_check i Hi) as B. cbv beta in B.
  rewrite H in B.
  destruct (String.eqb_spec pat "/fiken/sync/companies/:slug/incremental") as [E|E].
  - split; [intros _; now apply Nat.eqb_eq|congruence].
  - split; [congruence|intros _].
    destruct (dispatch rm pat) as [[j ps]|]; [|discriminate].
    apply Nat.eqb_eq in B. subst j. now exists ps.
Qed.






(** [createApp] registers [POST /fiken/sync/companies/:slug/incremental]
    after [POST /fiken/sync/companies/:slug/:dataType]: each route of the
    table handles some request, except the incremental one, which no
    request reaches. *)
Theorem route_reachable (i : nat) (rm : http_method) (pat : string) :
  nth_error routes i = Some (rm, pat) ->
  (exists m p ps, dispatch m p = Some (i, ps))
  <-> pat <> "/fiken/sync/companies/:slug/incremental".
Proof.
  intro H. destruct (routes_check_at i rm pat H) as [H23 Hother]. split.
  - intros (m & p & ps & D) E. specialize (H23 E). subst i pat.
    assert (rm = POST) by (cbn in H; congruence). subst rm.
    unfold dispatch in D. destruct (path_segments p) as [segs|]; [|discriminate].
    destruct (dispatch_from_spec 0 routes m segs 23 ps D) as (_ & (r & Hr & Hm) & Hb).
    rewrite Nat.sub_0_r in Hr, Hb. rewrite H in Hr. injection Hr as <-.
    destruct (incremental_shadowed m segs ps Hm) as [ps' Hm'].
    rewrite (Hb 22%nat (POST, "/fiken/sync/companies/:slug/:dataType") ltac:(lia) eq_refl)
      in Hm'.
    discriminate.
  - intro E. destruct (Hother E) as [ps D]. now exists rm, pat, ps.
Qed.

Lemma route_reachable_witness :
  nth_error routes 23 = Some (POST, "/fiken/sync/companies/:slug/incremental")
  /\ ~ (exists m p ps, dispatch m p = Some (23%nat, ps)).
Proof.
  split; [reflexivity|].
  intro Hx.
  exact (proj1 (route_reachable 23 POST "/fiken/sync/companies/:slug/incremental" eq_refl)
           Hx eq_refl).
Defined.





End Routing.

(** ** Ids from [Location] headers, the temp-directory summary and the
    loading of the order files *)

Section Files.
Local Open Scope string_scope.

(** The id [FikenAPI]'s [create*] methods take from a [Location] header is
    its last path segment; a header ending in [/] gives the empty id. *)
Theorem location_id_last_segment (prefix id : string) :
  Paths.no_slash id = true ->
  location_id (Some (prefix ++ "/" ++ id)) = Some id.
Proof.
  intro H.
  assert (E : exists c s, prefix ++ "/" ++ id = String c s)
    by (destruct prefix; simpl; eauto).
  destruct E as (c & s & E). unfold location_id. rewrite E, <- E.
  destruct (split_slash_app_any prefix id) as (l & Hl & Hs).
  change ("/" ++ id) with (String "/" id). rewrite Hs, split_slash_no_slash by exact H.
  destruct l as [|x l]; [congruence|].
  rewrite last_last. reflexivity.
Qed.

Lemma location_id_last_segment_witness :
  location_id (Some "https://api.fiken.no/api/v2/companies/acme/sales/") = Some "".
Proof.
  exact (location_id_last_segment "https://api.fiken.no/api/v2/companies/acme/sales" ""
           eq_refl).
Defined.

Lemma endsWith_app (s suffix : string) :
  endsWith s suffix = true ->
  exists pre, list_ascii_of_string s = app pre (list_ascii_of_string suffix).
Proof.
  unfold endsWith. intro H. apply andb_true_iff in H as [_ H].
  apply String.eqb_eq in H.
  exists (firstn (List.length (list_ascii_of_string s) - List.length (list_ascii_of_string suffix))
            (list_ascii_of_string s)).
  rewrite <- H at 2. rewrite list_ascii_of_string_of_list_ascii.
  symmetry. apply firstn_skipn.
Qed.

Lemma json_not_pdf (s : string) :
  endsWith s ".json" = true -> endsWith s ".pdf" = false.
Proof.
  intro Hj. destruct (endsWith s ".pdf") eqn:Hp; [|reflexivity].
  destruct (endsWith_app _ _ Hj) as [p1 E1]. destruct (endsWith_app _ _ Hp) as [p2 E2].
  rewrite E1 in E2.
  change (list_ascii_of_string ".json") with (app [ "."; "j"; "s"; "o" ]%char [ "n"%char ]) in E2.
  change (list_ascii_of_string ".pdf") with (app [ "."; "p"; "d" ]%char [ "f"%char ]) in E2.
  rewrite !app_assoc in E2. apply app_inj_tail in E2 as [_ E]. discriminate.
Qed.

Lemma summarise_fold (entries : list dirent) (t j p : nat) :
  fold_left summarise_step entries (t, j, p)
  = (t + List.length (filter entry_isFile entries),
     j + List.length (filter (fun e => endsWith (entry_name e) ".json")
                        (filter entry_isFile entries)),
     p + List.length (filter (fun e => endsWith (entry_name e) ".pdf")
                        (filter entry_isFile entries)))%nat.
Proof.
  revert t j p; induction entries as [|e r IH]; intros t j p; simpl.
  - now rewrite !Nat.add_0_r.
  - destruct (entry_isFile e); simpl.
    + rewrite IH.
      destruct (endsWith (entry_name e) ".json"), (endsWith (entry_name e) ".pdf");
        simpl; rewrite ?Nat.add_succ_r; reflexivity.
    + apply IH.
Qed.

Lemma json_pdf_le (l : list dirent) :
  (List.length (filter (fun e => endsWith (entry_name e) ".json") l)
   + List.length (filter (fun e => endsWith (entry_name e) ".pdf") l) <= List.length l)%nat.
Proof.
  induction l as [|e r IH]; simpl; [lia|].
  destruct (endsWith (entry_name e) ".json") eqn:Hj.
  - rewrite (json_not_pdf _ Hj). simpl. lia.
  - destruct (endsWith (entry_name e) ".pdf"); simpl; lia.
Qed.

(** [summariseTempDir] counts the regular files of the directory, and among
    them those ending in [.json] and in [.pdf]; no file is counted as both,
    so [json + pdf <= total]. *)
Theorem summariseTempDir_counts (entries : list dirent) :
  let files := filter entry_isFile entries in
  let json := List.length (filter (fun e => endsWith (entry_name e) ".json") files) in
  let pdf := List.length (filter (fun e => endsWith (entry_name e) ".pdf") files) in
  summariseTempDir (Entries entries) = Summary (List.length files) json pdf None
  /\ (json + pdf <= List.length files)%nat.
Proof.
  cbv zeta. split.
  - unfold summariseTempDir. rewrite summarise_fold. reflexivity.
  - apply json_pdf_le.
Qed.

Lemma string_leb_trans (a b c : string) :
  String.leb a b = true -> String.leb b c = true -> String.leb a c = true.
Proof.
  revert b c; induction a as [|x a IH]; intros [|y b] [|z c]; unfold String.leb; simpl;
    try easy.
  unfold Ascii.compare.
  destruct (N.compare_spec (N_of_ascii x) (N_of_ascii y));
  destruct (N.compare_spec (N_of_ascii y) (N_of_ascii z));
  destruct (N.compare_spec (N_of_ascii x) (N_of_ascii z)); try easy; try lia.
  exact (IH b c).
Qed.

Lemma insert_sorted_perm (x : string) (l : list string) :
  Permutation (insert_sorted x l) (x :: l).
Proof.
  induction l as [|y r IH]; simpl; [reflexivity|].
  destruct (String.leb x y); [reflexivity|].
  rewrite IH. apply perm_swap.
Qed.

Lemma sort_strings_perm (l : list string) : Permutation (sort_strings l) l.
Proof.
  induction l as [|x r IH]; simpl; [reflexivity|].
  rewrite insert_sorted_perm. now apply perm_skip.
Qed.

Lemma insert_sorted_sorted (x : string) (l : list string) :
  Sorted (fun a b => String.leb a b = true) l ->
  Sorted (fun a b => String.leb a b = true) (insert_sorted x l).
Proof.
  induction 1 as [|y r Hr IH Hhd]; simpl.
  - repeat constructor.
  - destruct (String.leb x y) eqn:Exy.
    + constructor; [constructor; assumption|constructor; exact Exy].
    + assert (Eyx : String.leb y x = true)
        by (destruct (String.leb_total x y); congruence).
      constructor; [exact IH|].
      destruct r as [|z r]; simpl; [constructor; exact Eyx|].
      inversion Hhd; subst.
      destruct (String.leb x z); constructor; assumption.
Qed.

Lemma sort_strings_sorted (l : list string) :
  StronglySorted (fun a b => String.leb a b = true) (sort_strings l).
Proof.
  apply Sorted_StronglySorted; [intros a b c; apply string_leb_trans|].
  induction l as [|x r IH]; simpl; [constructor|].
  now apply insert_sorted_sorted.
Qed.

Lemma sorted_perm_eq (l1 l2 : list string) :
  StronglySorted (fun a b => String.leb a b = true) l1 ->
  StronglySorted (fun a b => String.leb a b = true) l2 ->
  Permutation l1 l2 -> l1 = l2.
Proof.
  revert l2; induction l1 as [|a r1 IH]; intros l2 S1 S2 P.
  - symmetry. now apply Permutation_nil.
  - destruct l2 as [|b r2]; [apply Permutation_sym, Permutation_nil in P; discriminate|].
    apply StronglySorted_inv in S1 as [S1 F1]. apply StronglySorted_inv in S2 as [S2 F2].
    assert (Eab : a = b).
    { assert (Ha : In a (b :: r2)) by (apply (Permutation_in _ P); left; reflexivity).
      assert (Hb : In b (a :: r1))
        by (apply (Permutation_in _ (Permutation_sym P)); left; reflexivity).
      destruct Ha as [Ha|Ha]; [now subst|]. destruct Hb as [Hb|Hb]; [now subst|].
      apply String.leb_antisym.
      - exact (proj1 (Forall_forall _ _) F1 b Hb).
      - exact (proj1 (Forall_forall _ _) F2 a Ha). }
    subst b. f_equal. apply IH; [exact S1|exact S2|].
    exact (Permutation_cons_inv P).
Qed.

Lemma sort_strings_perm_eq (l1 l2 : list string) :
  Permutation l1 l2 -> sort_strings l1 = sort_strings l2.
Proof.
  intro P. apply sorted_perm_eq; try apply sort_strings_sorted.
  rewrite !sort_strings_perm. exact P.
Qed.

Lemma filter_perm {A : Type} (f : A -> bool) (l1 l2 : list A) :
  Permutation l1 l2 -> Permutation (filter f l1) (filter f l2).
Proof.
  induction 1 as [|x l1 l2 _ IH|x y l|l1 l2 l3 _ IH1 _ IH2]; simpl.
  - constructor.
  - destruct (f x); [now apply perm_skip|exact IH].
  - destruct (f x), (f y); try constructor; reflexivity.
  - now transitivity (filter f l2).
Qed.

(** The orders [loadShopifyOrders] returns do not depend on the order in
    which the directory lists its files: they come in file-name order. *)
Theorem loadShopifyOrders_listing_order (dir_exists : bool) (files1 files2 : list string)
    (read : string -> option Webhook.json) :
  Permutation files1 files2 ->
  loadShopifyOrders dir_exists files1 read = loadShopifyOrders dir_exists files2 read.
Proof.
  intro P. unfold loadShopifyOrders.
  rewrite (sort_strings_perm_eq (filter order_file files1) (filter order_file files2))
    by (apply filter_perm; exact P).
  reflexivity.
Qed.

Lemma loadShopifyOrders_listing_order_witness :
  Permutation ["ordre_2.json"; "notes.txt"; "ordre_1.json"] ["ordre_1.json"; "ordre_2.json"; "notes.txt"]
  /\ loadShopifyOrders true ["ordre_2.json"; "notes.txt"; "ordre_1.json"]
       (fun f => Some (Webhook.JObject [("financial_status", Webhook.JString "paid");
                                       ("file", Webhook.JString f)]))
     = loadShopifyOrders true ["ordre_1.json"; "ordre_2.json"; "notes.txt"]
       (fun f => Some (Webhook.JObject [("financial_status", Webhook.JString "paid");
                                       ("file", Webhook.JString f)])).
Proof.
  assert (P : Permutation ["ordre_2.json"; "notes.txt"; "ordre_1.json"]
                          ["ordre_1.json"; "ordre_2.json"; "notes.txt"]).
  { apply (Permutation_trans (l' := ["ordre_1.json"; "ordre_2.json"; "notes.txt"]));
      [|reflexivity].
    apply (Permutation_trans (l' := ["ordre_2.json"; "ordre_1.json"; "notes.txt"])).
    - apply perm_skip, perm_swap.
    - apply perm_swap. }
  split; [exact P|].
  exact (loadShopifyOrders_listing_order true _ _ _ P).
Defined.

Lemma filter_paid_null (orders : list Webhook.json) :
  In Webhook.JNull orders -> filter_paid orders = None.
Proof.
  induction orders as [|o r IH]; simpl; [contradiction|].
  intros [->|H]; [reflexivity|].
  destruct (is_paid o); [|reflexivity]. now rewrite (IH H).
Qed.

(** An order file whose content is [null] makes [loadShopifyOrders] throw,
    whatever the other files hold: the filter on [financial_status] reads a
    property of [null]. *)
Theorem loadShopifyOrders_null_throws (files : list string) (read : string -> option Webhook.json)
    (file : string) :
  In file files -> order_file file = true -> read file = Some Webhook.JNull ->
  loadShopifyOrders true files read = None.
Proof.
  intros Hin Hf Hr. unfold loadShopifyOrders. cbn [negb].
  apply filter_paid_null. apply in_flat_map. exists file. split.
  - apply (Permutation_in _ (Permutation_sym (sort_strings_perm _))).
    apply filter_In. split; assumption.
  - rewrite Hr. left. reflexivity.
Qed.

Lemma loadShopifyOrders_null_throws_witness :
  loadShopifyOrders true ["ordre_1.json"; "ordre_2.json"]
    (fun f => if String.eqb f "ordre_2.json" then Some Webhook.JNull
              else Some (Webhook.JObject [("financial_status", Webhook.JString "paid")]))
  = None.
Proof.
  exact (loadShopifyOrders_null_throws ["ordre_1.json"; "ordre_2.json"]
           (fun f => if String.eqb f "ordre_2.json" then Some Webhook.JNull
                     else Some (Webhook.JObject [("financial_status", Webhook.JString "paid")]))
           "ordre_2.json" (or_intror (or_introl eq_refl)) eq_refl eq_refl).
Defined.

End Files.
